(** * NDSLdr: the Nintendo DS ROM loader module (src/nds.cpp)

    A shallow embedding of [CalcCRC16], [accept_file] and [load_file] and
    the properties of the header checksum, of format recognition and of the
    layout checks made before an image is mapped.

    nds.cpp includes nds.h for the packed struct [nds_hdr], the table
    [crc16tab] and the table [memory] of [MEMARRAY] entries; that header is
    not available, so the struct layout and the two tables are parameters
    of the development, instantiated only to evaluate the code on
    examples. *)

From Stdlib Require Import ZArith List Lia Ascii String Bool.
From coqutil Require Import Byte Word.LittleEndianList.
Import ListNotations.
Local Open Scope Z_scope.

(** ** Machine integers

    [unsigned short] is 16 bits wide, [unsigned int], [ulong] and [ea_t] are
    32 bits wide and wrap around; [long] is the signed 32-bit reading. *)

Definition u16 (x : Z) : Z := x mod 2 ^ 16.
Definition u32 (x : Z) : Z := x mod 2 ^ 32.
Definition s32 (x : Z) : Z := (x + 2 ^ 31) mod 2 ^ 32 - 2 ^ 31.

(** [(ea_t)-1] *)
Definition BADADDR : Z := 0xFFFFFFFF.

(** ** The raw header buffer

    The global [nds_hdr hdr] is held as its bytes; [CalcCRC16] reads it
    through an [unsigned char *]. *)

Definition byte_at (buf : list byte) (i : nat) : Z :=
  byte.unsigned (nth i buf Byte.x00).

(** ** CalcCRC16 *)

Section CRC16.

(** The lookup table of nds.h. *)
Variable crc16tab : list Z.

Definition crc16tab_at (i : Z) : Z := nth (Z.to_nat i) crc16tab 0.

(** The loop body:
    [crc16 = (crc16 >> 8) ^ crc16tab[(crc16 ^ data) & 0xFF]],
    stored back into an [unsigned short]. *)
Definition crc16_step (crc16 data : Z) : Z :=
  u16 (Z.lxor (Z.shiftr crc16 8)
              (crc16tab_at (Z.land (Z.lxor crc16 data) 0xFF))).

(** [for (int i = 0; i < 350; i++)], with [n] iterations left. *)
Fixpoint CalcCRC16_loop (n i : nat) (ndshdr : list byte) (crc16 : Z) : Z :=
  match n with
  | O => crc16
  | S n' =>
      let data := byte_at ndshdr i in
      CalcCRC16_loop n' (S i) ndshdr (crc16_step crc16 data)
  end.

Definition CalcCRC16 (ndshdr : list byte) : Z :=
  CalcCRC16_loop 350 0 ndshdr 0xFFFF.

(** The checksum as the specification words it: a 16-bit register set to
    0xFFFF and updated once per byte over the first 350 bytes of the
    buffer. *)
Definition spec_update (crc : Z) (b : byte) : Z :=
  (Z.lxor (Z.shiftr crc 8)
          (crc16tab_at (Z.land (Z.lxor crc (byte.unsigned b)) 0xFF)))
    mod 65536.

Definition spec_checksum (headerBytes : list byte) : Z :=
  fold_left spec_update (firstn 350 headerBytes) 0xFFFF.

End CRC16.

(** Modelled from the spec: the table [crc16tab] of nds.h is missing; the
    spec describes it as the 256-entry lookup table of a reflected CRC-16
    polynomial.  [make_crc16tab poly] is that table for the reflected
    polynomial [poly], entry [i] being eight shift-and-xor rounds on [i]. *)
Definition crc16_round (poly c : Z) : Z :=
  if Z.odd c then Z.lxor (Z.shiftr c 1) poly else Z.shiftr c 1.

Fixpoint crc16_rounds (n : nat) (poly c : Z) : Z :=
  match n with
  | O => c
  | S n' => crc16_rounds n' poly (crc16_round poly c)
  end.

(** What a round xors into the shifted register. *)
Definition feedback (poly c : Z) : Z := if Z.odd c then poly else 0.

Definition make_crc16tab (poly : Z) : list Z :=
  map (fun i => crc16_rounds 8 poly (Z.of_nat i)) (seq 0 256).

(** x^16 + x^15 + x^2 + 1, reflected. *)
Definition crc16tab_A001 : list Z := Eval vm_compute in make_crc16tab 0xA001.
(** x^16 + x^12 + x^5 + 1 (CCITT), reflected. *)
Definition crc16tab_8408 : list Z := Eval vm_compute in make_crc16tab 0x8408.

Definition bytes_of_string (s : string) : list byte := list_byte_of_string s.

(** ** The input file

    A [linput_t] is the file's bytes and the current position.  [qlsize] is
    the SDK's file length (the SDK hands it out as a 32-bit integer: the
    files it opens are shorter than 2^31 bytes). *)

Record linput_t := mk_linput { li_bytes : list byte; li_pos : nat }.

Definition linput_of (bs : list byte) : linput_t := mk_linput bs 0.

Definition qlsize (li : linput_t) : Z := Z.of_nat (List.length (li_bytes li)).

(** [qlseek(li, pos, SEEK_SET)] *)
Definition qlseek (li : linput_t) (pos : nat) : linput_t :=
  mk_linput (li_bytes li) pos.

(** [qlread(li, buf, size)]: the bytes available at the position, at most
    [size] of them, overwrite the start of [buf]; the count is returned. *)
Definition qlread (li : linput_t) (buf : list byte) (size : nat)
  : Z * list byte * linput_t :=
  let chunk := firstn size (skipn (li_pos li) (li_bytes li)) in
  let got := List.length chunk in
  (Z.of_nat got,
   chunk ++ skipn got buf,
   mk_linput (li_bytes li) (li_pos li + got)).

(** ** The header struct

    Modelled from the spec: nds.h is missing, so the byte offsets of the
    fields of the packed struct [nds_hdr] and its size are gathered in a
    layout record; the spec gives the widths (four bytes for the addresses,
    sizes and offsets, two for the checksum, little-endian).  The fields
    are read as unsigned integers. *)

Record nds_hdr_layout := mk_layout {
  sizeof_nds_hdr : nat;
  off_title : nat;
  off_headerSize : nat;
  off_arm9_rom_offset : nat;
  off_arm9_entry_address : nat;
  off_arm9_ram_address : nat;
  off_arm9_size : nat;
  off_arm7_rom_offset : nat;
  off_arm7_entry_address : nat;
  off_arm7_ram_address : nat;
  off_arm7_size : nat;
  off_headerCRC16 : nat
}.

Definition field (width off : nat) (buf : list byte) : Z :=
  le_combine (firstn width (skipn off buf)).

(** The bytes of a [char] field read with [%s]: up to the first NUL. *)
Fixpoint cstring (bs : list byte) : list byte :=
  match bs with
  | [] => []
  | b :: bs' => if Byte.eqb b Byte.x00 then [] else b :: cstring bs'
  end.

(** The table [memory] of nds.h: the legal RAM blocks. *)
Record MEMARRAY := mk_mem { mem_start : Z; mem_end : Z }.

(** ** What the loader asks of the IDA kernel, in call order *)

Inductive arg :=
| arg_int (z : Z)
| arg_char (c : string)
| arg_str (s : list byte)
| arg_null.

Inductive event :=
| set_processor_type (procname : string)
| set_selector (selector paragraph : Z)
| add_segm (para start_ea end_ea : Z) (name sclass : string)
| set_segm_addressing (seg_of_ea : Z) (use32 : Z)
| file2base (pos ea1 ea2 : Z) (patchable : Z)
| describe (ea : Z) (isprev : bool) (format : string) (args : list arg).

Definition is_add_segm (e : event) : bool :=
  match e with add_segm _ _ _ _ _ => true | _ => false end.

Definition is_file2base (e : event) : bool :=
  match e with file2base _ _ _ _ => true | _ => false end.

(** The fields of the global [inf] that the loader assigns. *)
Record idainfo := mk_inf { startIP : Z; beginEA : Z; start_cs : Z }.

(** The loader's globals: the header buffer [hdr] and the kernel's [inf]. *)
Record globals := mk_globals { hdr : list byte; inf : idainfo }.

(** The line feed that ends a C literal written with a backslash and n. *)
Definition LF : string := String "010"%char EmptyString.

Definition line (s : string) : string := (s ++ LF)%string.

(** SDK constants. *)
Definition ACCEPT_FIRST : Z := 0x8000.
Definition FILEREG_PATCHABLE : Z := 1.
Definition CLASS_CODE : string := "CODE".
Definition version : string := "v1.13".

(** Where [load_file] leaves through [qexit(1)]. *)
Inductive exit_site :=
| at_cancel        (* the dialog was cancelled *)
| at_sanitycheck   (* the image does not fit in the file *)
| at_mem_block     (* no legal RAM block was found *)
| at_add_segm.     (* the kernel refused a segment *)

(** The locals of [load_file] when it returns. *)
Record locals := mk_locals {
  startEA : Z;
  endEA : Z;
  offset : Z;
  ARM9 : bool;
  entry_point : Z
}.

Inductive outcome :=
| qexit (site : exit_site) (code : Z) (g : globals) (calls : list event)
| returned (l : locals) (g : globals) (calls : list event).

(** What [accept_file] hands back: its result, the globals and the input
    after the call, the format name when it was filled in, and the kernel
    calls made. *)
Record accept_result := mk_accept {
  acc_ret : Z;
  acc_globals : globals;
  acc_li : linput_t;
  acc_fileformatname : option string;
  acc_calls : list event
}.

Section Loader.

Variable crc16tab : list Z.
Variable lay : nds_hdr_layout.
Variable memory : list MEMARRAY.

(** The kernel's answer to a call of [add_segm] for a block, given the
    calls made before it. *)
Variable add_segm_ok : list event -> MEMARRAY -> bool.

Definition headerCRC16 (h : list byte) : Z := field 2 (off_headerCRC16 lay) h.
Definition headerSize (h : list byte) : Z := field 4 (off_headerSize lay) h.
Definition title (h : list byte) : list byte := cstring (skipn (off_title lay) h).
Definition arm9_rom_offset (h : list byte) : Z := field 4 (off_arm9_rom_offset lay) h.
Definition arm9_entry_address (h : list byte) : Z := field 4 (off_arm9_entry_address lay) h.
Definition arm9_ram_address (h : list byte) : Z := field 4 (off_arm9_ram_address lay) h.
Definition arm9_size (h : list byte) : Z := field 4 (off_arm9_size lay) h.
Definition arm7_rom_offset (h : list byte) : Z := field 4 (off_arm7_rom_offset lay) h.
Definition arm7_entry_address (h : list byte) : Z := field 4 (off_arm7_entry_address lay) h.
Definition arm7_ram_address (h : list byte) : Z := field 4 (off_arm7_ram_address lay) h.
Definition arm7_size (h : list byte) : Z := field 4 (off_arm7_size lay) h.

(** *** accept_file *)

Definition accept_file (g : globals) (li : linput_t) (n : Z) : accept_result :=
  if negb (n =? 0) then mk_accept 0 g li None []
  else
    let filelen := qlsize li in
    if filelen <? Z.of_nat (sizeof_nds_hdr lay) then mk_accept 0 g li None []
    else
      let li1 := qlseek li 0 in
      let rd := qlread li1 (hdr g) (sizeof_nds_hdr lay) in
      let g1 := mk_globals (snd (fst rd)) (inf g) in
      let li2 := snd rd in
      if negb (fst (fst rd) =? Z.of_nat (sizeof_nds_hdr lay))
      then mk_accept 0 g1 li2 None []
      else if negb (CalcCRC16 crc16tab (hdr g1) =? headerCRC16 (hdr g1))
      then mk_accept 0 g1 li2 None []
      else mk_accept (Z.lor 1 ACCEPT_FIRST) g1 li2
                     (Some "Nintendo DS ROM"%string)
                     [set_processor_type "ARM"].

(** *** load_file *)

(** The search for a legal RAM block: [found_mem_block] after the loop
    over the blocks still to visit. *)
Fixpoint found_mem_block (ms : list MEMARRAY) (startEA endEA : Z) : bool :=
  match ms with
  | [] => false
  | m :: ms' =>
      if (startEA >=? mem_start m) || (endEA <=? mem_end m) then true
      else found_mem_block ms' startEA endEA
  end.

(** The loop creating a segment for each legal RAM block; [false] when
    the kernel refused one. *)
Fixpoint create_segments (ms : list MEMARRAY) (calls : list event)
  : bool * list event :=
  match ms with
  | [] => (true, calls)
  | m :: ms' =>
      let call := add_segm 1 (mem_start m) (mem_end m) "RAM" CLASS_CODE in
      if add_segm_ok calls m then create_segments ms' (calls ++ [call])
      else (false, calls ++ [call])
  end.

(** The lines added to the database, from the first [describe] on; [line s]
    is the C literal of [s] followed by a line feed. *)
Definition describe_rom (h : list byte) (startEA endEA : Z) (ARM9 : bool)
           (entry_point : Z) : list event :=
  [ describe startEA true (line ";   Created with NDS Loader %s.")
             [arg_str (bytes_of_string version)];
    describe startEA true ";   Author 1:           dennis@backtrace.de" [];
    describe startEA true (line ";   Author 2:           hitchhikr@australia.edu") [];
    describe startEA true (line ";   Game Title:         %s") [arg_str (title h)];
    describe startEA true ";   Processor:          ARM%c"
             [arg_char (if ARM9 then "9" else "7")];
    describe startEA true ";   ROM Header size:    0x%08X" [arg_int (headerSize h)];
    describe startEA true (line ";   Header CRC:         0x%04X") [arg_int (headerCRC16 h)];
    describe startEA true ";   Offset in ROM:      0x%08X"
             [arg_int (if ARM9 then arm9_rom_offset h else arm7_rom_offset h)];
    describe startEA true ";   Array:              0x%08X - 0x%08X (%d bytes)"
             [arg_int startEA; arg_int endEA;
              arg_int (if ARM9 then arm9_size h else arm7_size h)];
    describe startEA true (line ";   Entry point:        0x%08X") [arg_int entry_point];
    describe startEA true ";   --- Beginning of ROM content ---" [arg_null] ]
  ++ (if negb (entry_point =? startEA)
      then [describe entry_point true ";   --- Entry point ---" [arg_null]]
      else [])
  ++ [ describe endEA true ";   --- End of ROM content ---" [arg_null] ].

(** [load_file] from the check of the RAM blocks to its end; the two
    branches on the answer join here. *)
Definition map_image (g : globals) (calls : list event)
           (startEA endEA offset : Z) (ARM9 : bool) : outcome :=
  if negb (found_mem_block memory startEA endEA)
  then qexit at_mem_block 1 g calls
  else
    let calls1 := calls ++ [set_selector 1 0] in
    let g1 := mk_globals (hdr g) (mk_inf (startIP (inf g)) (beginEA (inf g)) 1) in
    let segs := create_segments memory calls1 in
    if negb (fst segs) then qexit at_add_segm 1 g1 (snd segs)
    else
      let calls2 :=
        snd segs ++ [ set_segm_addressing startEA 1;
                      file2base offset startEA endEA FILEREG_PATCHABLE ] in
      let entry_point :=
        if ARM9 then arm9_entry_address (hdr g) else arm7_entry_address (hdr g) in
      let calls3 := calls2 ++ describe_rom (hdr g) startEA endEA ARM9 entry_point in
      let g2 :=
        if negb (entry_point =? BADADDR)
        then mk_globals (hdr g1) (mk_inf entry_point (beginEA (inf g1)) 0)
        else g1 in
      returned (mk_locals startEA endEA offset ARM9 entry_point) g2 calls3.

(** [answer] is what the dialog [askyn_cv] returned: 1 for yes, 0 for no,
    -1 for cancel. *)
Definition load_file (g : globals) (li : linput_t) (answer : Z) : outcome :=
  let li1 := qlseek li 0 in
  let rd := qlread li1 (hdr g) (sizeof_nds_hdr lay) in
  let h := snd (fst rd) in
  let li2 := snd rd in
  if u32 answer =? BADADDR then qexit at_cancel 1 (mk_globals h (inf g)) []
  else if negb (answer =? 0) then
    let calls := [set_processor_type "ARM"] in
    let g1 := mk_globals h (mk_inf (arm9_entry_address h) (arm9_entry_address h)
                                   (start_cs (inf g))) in
    let startEA := arm9_ram_address h in
    let endEA := u32 (arm9_ram_address h + arm9_size h) in
    let offset := s32 (arm9_rom_offset h) in
    if qlsize li2 <? u32 (offset + arm9_size h)
    then qexit at_sanitycheck 1 g1 calls
    else map_image g1 calls startEA endEA offset true
  else
    let calls := [set_processor_type "ARM710A"] in
    let g1 := mk_globals h (mk_inf (arm7_entry_address h) (arm7_entry_address h)
                                   (start_cs (inf g))) in
    let startEA := arm7_ram_address h in
    let endEA := u32 (arm7_ram_address h + arm7_size h) in
    let offset := s32 (arm7_rom_offset h) in
    if qlsize li2 <? u32 (offset + arm7_size h)
    then qexit at_sanitycheck 1 g1 calls
    else map_image g1 calls startEA endEA offset false.

End Loader.

(** ** Instances used to run the code

    Modelled from the spec: nds.h is missing.  [nds_layout] places the
    fields where the cartridge header of the console has them (512 bytes,
    the checksum right after the 350 bytes it covers); [ram_blocks] is the
    block of the spec's scenario; [kernel_accepts] is a kernel that never
    refuses a segment. *)

Definition nds_layout : nds_hdr_layout :=
  mk_layout 512 0 132 32 36 40 44 48 52 56 60 350.

Definition ram_blocks : list MEMARRAY := [ mk_mem 0x02000000 0x023FFFFF ].

Definition kernel_accepts : list event -> MEMARRAY -> bool := fun _ _ => true.

Definition no_info : idainfo := mk_inf 0 0 0.

(** The zero-initialised global [hdr]. *)
Definition hdr0 (lay : nds_hdr_layout) : list byte :=
  repeat Byte.x00 (sizeof_nds_hdr lay).

Definition globals0 (lay : nds_hdr_layout) : globals :=
  mk_globals (hdr0 lay) no_info.

(** Writing [bs] over a buffer at [off]. *)
Definition poke (off : nat) (bs : list byte) (buf : list byte) : list byte :=
  firstn off buf ++ bs ++ skipn (off + List.length bs) buf.

Definition poke32 (off : nat) (v : Z) (buf : list byte) : list byte :=
  poke off (le_split 4 v) buf.

Definition poke16 (off : nat) (v : Z) (buf : list byte) : list byte :=
  poke off (le_split 2 v) buf.

(** A 512-byte header with the given first-core and second-core images
    (entry, ram address, size, rom offset), the other bytes zero. *)
Definition header_with (e9 r9 s9 o9 e7 r7 s7 o7 : Z) : list byte :=
  poke32 32 o9 (poke32 36 e9 (poke32 40 r9 (poke32 44 s9
  (poke32 48 o7 (poke32 52 e7 (poke32 56 r7 (poke32 60 s7
  (hdr0 nds_layout)))))))).

(** The same header with its checksum stored in [headerCRC16]. *)
Definition sealed (tab : list Z) (h : list byte) : list byte :=
  poke16 350 (CalcCRC16 tab h) h.

(** A file: a header followed by zero bytes up to [len] bytes in all. *)
Definition rom_of (h : list byte) (len : nat) : list byte :=
  h ++ repeat Byte.x00 (len - List.length h).

(** The header of the spec's end-to-end scenario. *)
Definition scenario_header : list byte :=
  header_with 0x02004000 0x02000000 0x1000 0x4000 0 0 0 0.

Definition scenario_rom : linput_t :=
  linput_of (rom_of scenario_header (Z.to_nat 0x6000)).

(** The scenario's file with the checksum of its header stored in it. *)
Definition sealed_rom : linput_t :=
  linput_of (rom_of (sealed crc16tab_A001 scenario_header) (Z.to_nat 0x6000)).

(** A file of ten bytes. *)
Definition ten_bytes : linput_t := linput_of (repeat Byte.x00 10).

(** A first-core image whose size carries the sum with its rom offset past
    2^32: 0x4000 + 0xFFFFE000 = 2^32 + 0x2000; the file holds the header
    with its checksum stored. *)
Definition wrapped_header : list byte :=
  header_with 0x02000000 0x02000000 0xFFFFE000 0x4000 0 0 0 0.

Definition wrapped_rom : linput_t :=
  linput_of (rom_of (sealed crc16tab_A001 wrapped_header) (Z.to_nat 0x6000)).

(** A first-core image placed across the top of the 32-bit address space
    (ram address 0xFFFFF000, size 0x2000), its bytes at rom offset 0x4000 of
    a file of 0x6000 bytes; the file holds the header with its checksum
    stored. *)
Definition crossing_header : list byte :=
  header_with 0xFFFFF000 0xFFFFF000 0x2000 0x4000 0 0 0 0.

Definition crossing_rom : linput_t :=
  linput_of (rom_of (sealed crc16tab_A001 crossing_header) (Z.to_nat 0x6000)).

(** A table of two RAM blocks. *)
Definition two_blocks : list MEMARRAY :=
  [ mk_mem 0x02000000 0x023FFFFF; mk_mem 0x037F8000 0x0380FFFF ].

(** A small RAM block, and a second-core image that starts below it and
    ends above it. *)
Definition small_block : list MEMARRAY := [ mk_mem 0x1000 0x10FF ].

Definition straddling_header : list byte :=
  header_with 0 0 0 0 0x0800 0x0800 0x1000 0x0200.

Definition straddling_rom : linput_t :=
  linput_of (rom_of straddling_header (Z.to_nat 0x6000)).

(** Flipping bit [k] of a byte, and of the byte at index [i] of a buffer. *)
Definition flip_bit (k : Z) (b : byte) : byte :=
  byte.of_Z (Z.lxor (byte.unsigned b) (Z.shiftl 1 k)).

Fixpoint alter_nth (f : byte -> byte) (i : nat) (buf : list byte) : list byte :=
  match buf, i with
  | [], _ => []
  | b :: r, O => f b :: r
  | b :: r, S i' => b :: alter_nth f i' r
  end.

Definition flip_bit_at (i : nat) (k : Z) (buf : list byte) : list byte :=
  alter_nth (flip_bit k) i buf.

(** ** Bytes of a register and of a table entry *)

Definition hi8 (t : Z) : Z := Z.land (Z.shiftr t 8) 0xFF.
Definition lo8 (t : Z) : Z := Z.land t 0xFF.

(** The table entry the loop body looks up for register [c] and byte [d]. *)
Definition tab_entry (crc16tab : list Z) (c d : Z) : Z :=
  crc16tab_at crc16tab (Z.land (Z.lxor c d) 0xFF).

(** The entries of the table differ pairwise in their high byte, as those
    of a reflected CRC-16 table do. *)
Definition tab_hi_distinct (crc16tab : list Z) : Prop :=
  forall x y, 0 <= x < 256 -> 0 <= y < 256 ->
    hi8 (crc16tab_at crc16tab x) = hi8 (crc16tab_at crc16tab y) -> x = y.

Definition tab_hi_distinctb (crc16tab : list Z) : bool :=
  let his := map (fun i => hi8 (crc16tab_at crc16tab (Z.of_nat i))) (seq 0 256) in
  forallb (fun i => forallb (fun j => negb (nth i his 0 =? nth j his 0) || (i =? j)%nat)
                            (seq 0 256))
          (seq 0 256).

(** ** Vocabulary of the statements

    The header as [accept_file] and [load_file] read it from the start of
    the file, the image descriptor of the chosen core, the exit a run took,
    and the [add_segm] call made for a RAM block. *)

Definition read_header (lay : nds_hdr_layout) (g : globals) (li : linput_t)
  : list byte :=
  snd (fst (qlread (qlseek li 0) (hdr g) (sizeof_nds_hdr lay))).

Definition chose_ARM9 (answer : Z) : bool := negb (answer =? 0).

Definition image_entry_address (lay : nds_hdr_layout) (a : bool) (h : list byte) : Z :=
  if a then arm9_entry_address lay h else arm7_entry_address lay h.

Definition image_ram_address (lay : nds_hdr_layout) (a : bool) (h : list byte) : Z :=
  if a then arm9_ram_address lay h else arm7_ram_address lay h.

Definition image_size (lay : nds_hdr_layout) (a : bool) (h : list byte) : Z :=
  if a then arm9_size lay h else arm7_size lay h.

Definition image_rom_offset (lay : nds_hdr_layout) (a : bool) (h : list byte) : Z :=
  if a then arm9_rom_offset lay h else arm7_rom_offset lay h.

Definition processor_of (a : bool) : string :=
  if a then "ARM"%string else "ARM710A"%string.

Definition exit_site_of (o : outcome) : option exit_site :=
  match o with
  | qexit site _ _ _ => Some site
  | returned _ _ _ => None
  end.

Definition seg_call (m : MEMARRAY) : event :=
  add_segm 1 (mem_start m) (mem_end m) "RAM" CLASS_CODE.

(** The test of the loop over the RAM blocks, for one block. *)
Definition block_test (startEA endEA : Z) (m : MEMARRAY) : Prop :=
  startEA >= mem_start m \/ endEA <= mem_end m.

(** ** Vocabulary of the further statements *)

(** The field [headerCRC16] lies after the 350 bytes that [CalcCRC16]
    covers, and inside the struct. *)
Definition crc_field_outside (lay : nds_hdr_layout) : Prop :=
  (350 <= off_headerCRC16 lay)%nat /\
  (off_headerCRC16 lay + 2 <= sizeof_nds_hdr lay)%nat.

(** A file's bytes with the checksum of its header stored in
    [headerCRC16]. *)
Definition seal (lay : nds_hdr_layout) (crc16tab : list Z) (bs : list byte)
  : list byte :=
  poke16 (off_headerCRC16 lay) (CalcCRC16 crc16tab bs) bs.

(** The kernel calls of a run, and the calls that set the processor type. *)
Definition calls_of (o : outcome) : list event :=
  match o with
  | qexit _ _ _ calls => calls
  | returned _ _ calls => calls
  end.

Definition is_set_processor_type (e : event) : bool :=
  match e with set_processor_type _ => true | _ => false end.

(** A first-core image of 0x1000 bytes at 0x08000000, outside the block of
    [ram_blocks]. *)
Definition outside_header : list byte :=
  header_with 0x08000000 0x08000000 0x1000 0x200 0 0 0 0.

Definition outside_rom : linput_t :=
  linput_of (rom_of outside_header (Z.to_nat 0x6000)).

(** Globals left by earlier work: another header in [hdr], values in
    [inf]. *)
Definition stale_globals : globals := mk_globals wrapped_header (mk_inf 1 2 3).

(** * Properties *)

(** ** Machine integers and fields *)

Lemma u16_range x : 0 <= u16 x < 2 ^ 16.
Proof. unfold u16. apply Z.mod_pos_bound. reflexivity. Qed.

Lemma u32_range x : 0 <= u32 x < 2 ^ 32.
Proof. unfold u32. apply Z.mod_pos_bound. reflexivity. Qed.

Lemma u32_small x : 0 <= x < 2 ^ 32 -> u32 x = x.
Proof. intros H. unfold u32. apply Z.mod_small. exact H. Qed.

Lemma u32_s32 x : u32 (s32 x) = u32 x.
Proof.
  unfold u32, s32.
  rewrite Zminus_mod, Zmod_mod, <- Zminus_mod.
  f_equal. lia.
Qed.

Lemma s32_small x : 0 <= x < 2 ^ 31 -> s32 x = x.
Proof. intros H. unfold s32. rewrite Z.mod_small; lia. Qed.

(** The sum of a [long] and an [unsigned int] is computed on 32 unsigned
    bits: the sign of the [long] does not show in it. *)
Lemma u32_add_s32 x y : u32 (s32 x + y) = u32 (x + y).
Proof.
  unfold u32. rewrite Zplus_mod. fold (u32 (s32 x)). rewrite u32_s32.
  unfold u32. rewrite <- Zplus_mod. reflexivity.
Qed.

Lemma byte_at_range buf i : 0 <= byte_at buf i < 256.
Proof.
  unfold byte_at, byte.unsigned.
  pose proof (Byte.to_N_bounded (nth i buf Byte.x00)). lia.
Qed.

Example crc16_A001_check :
  fold_left (spec_update crc16tab_A001) (bytes_of_string "123456789") 0xFFFF
  = 0x4B37.
Proof. vm_compute. reflexivity. Qed.

Example crc16_8408_check :
  fold_left (spec_update crc16tab_8408) (bytes_of_string "123456789") 0xFFFF
  = 0x6F91.
Proof. vm_compute. reflexivity. Qed.

Lemma field_range width off buf :
  0 <= field width off buf < 2 ^ (8 * Z.of_nat width).
Proof.
  unfold field.
  pose proof (le_combine_bound (firstn width (skipn off buf))) as H.
  pose proof (firstn_le_length width (skipn off buf)) as Hl.
  split; [lia|].
  eapply Z.lt_le_trans; [apply H|].
  apply Z.pow_le_mono_r; lia.
Qed.

Lemma image_field_ranges lay a h :
  0 <= image_rom_offset lay a h < 2 ^ 32 /\
  0 <= image_ram_address lay a h < 2 ^ 32 /\
  0 <= image_size lay a h < 2 ^ 32.
Proof.
  unfold image_rom_offset, image_ram_address, image_size,
    arm9_rom_offset, arm7_rom_offset, arm9_ram_address, arm7_ram_address,
    arm9_size, arm7_size.
  destruct a; repeat split; apply (field_range 4).
Qed.

Example scenario_fields :
  arm9_entry_address nds_layout scenario_header = 0x02004000 /\
  arm9_ram_address nds_layout scenario_header = 0x02000000 /\
  arm9_size nds_layout scenario_header = 0x1000 /\
  arm9_rom_offset nds_layout scenario_header = 0x4000 /\
  qlsize scenario_rom = 0x6000.
Proof. vm_compute. repeat split; reflexivity. Qed.

(** ** The checksum *)

Section CRC16_facts.

Variable crc16tab : list Z.

Lemma skipn_nth_cons (h : list byte) (i : nat) :
  (i < List.length h)%nat -> skipn i h = nth i h Byte.x00 :: skipn (S i) h.
Proof.
  revert i. induction h as [|b h IH]; intros i Hi; simpl in Hi.
  - lia.
  - destruct i as [|i]; [reflexivity|].
    simpl. apply IH. lia.
Qed.

Lemma crc16_step_spec_update c h i :
  crc16_step crc16tab c (byte_at h i) = spec_update crc16tab c (nth i h Byte.x00).
Proof. reflexivity. Qed.

(** The loop from index [i] folds the update over the [n] bytes found
    there. *)
Lemma CalcCRC16_loop_fold n : forall i h c,
  (i + n <= List.length h)%nat ->
  CalcCRC16_loop crc16tab n i h c
  = fold_left (spec_update crc16tab) (firstn n (skipn i h)) c.
Proof.
  induction n as [|n IH]; intros i h c Hlen.
  - reflexivity.
  - rewrite (skipn_nth_cons h i) by lia.
    cbn [CalcCRC16_loop firstn fold_left].
    rewrite crc16_step_spec_update.
    apply IH. lia.
Qed.

Lemma crc16_step_range c d : 0 <= crc16_step crc16tab c d < 2 ^ 16.
Proof. unfold crc16_step. apply u16_range. Qed.

Lemma CalcCRC16_loop_range n : forall i h c,
  0 <= c < 2 ^ 16 -> 0 <= CalcCRC16_loop crc16tab n i h c < 2 ^ 16.
Proof.
  induction n as [|n IH]; intros i h c Hc; cbn [CalcCRC16_loop].
  - exact Hc.
  - apply IH. apply crc16_step_range.
Qed.

End CRC16_facts.

(** C2: over a header buffer (at least 350 bytes long), [CalcCRC16] is the
    specification's algorithm: a 16-bit register that starts at 0xFFFF and
    takes, for each of the first 350 raw bytes in order,
    [(crc >> 8) xor table[(crc xor byte) and 0xFF]]; its final value, a
    16-bit number, is the checksum. *)
Theorem CalcCRC16_is_spec_checksum (crc16tab : list Z) (ndshdr : list byte) :
  (350 <= List.length ndshdr)%nat ->
  CalcCRC16 crc16tab ndshdr = spec_checksum crc16tab ndshdr /\
  0 <= CalcCRC16 crc16tab ndshdr < 2 ^ 16.
Proof.
  intros Hlen. split.
  - unfold CalcCRC16, spec_checksum.
    rewrite CalcCRC16_loop_fold by (simpl; lia).
    reflexivity.
  - unfold CalcCRC16. apply CalcCRC16_loop_range. lia.
Qed.

Lemma CalcCRC16_is_spec_checksum_witness :
  (350 <= List.length scenario_header)%nat /\
  CalcCRC16 crc16tab_A001 scenario_header = spec_checksum crc16tab_A001 scenario_header.
Proof.
  split.
  - vm_compute. repeat constructor.
  - apply (CalcCRC16_is_spec_checksum crc16tab_A001 scenario_header).
    vm_compute. repeat constructor.
Defined.

(** ** Single-byte changes and the checksum *)

Lemma tab_hi_distinctb_sound tab : tab_hi_distinctb tab = true -> tab_hi_distinct tab.
Proof.
  intros H x y Hx Hy Heq.
  unfold tab_hi_distinctb in H. cbv zeta in H.
  rewrite forallb_forall in H.
  specialize (H (Z.to_nat x)).
  rewrite forallb_forall in H.
  assert (Hin : forall z, 0 <= z < 256 -> In (Z.to_nat z) (seq 0 256)).
  { intros z Hz. apply in_seq. lia. }
  specialize (H (Hin x Hx) (Z.to_nat y) (Hin y Hy)).
  assert (Hnth : forall z, 0 <= z < 256 ->
            nth (Z.to_nat z)
                (map (fun i => hi8 (crc16tab_at tab (Z.of_nat i))) (seq 0 256)) 0
            = hi8 (crc16tab_at tab z)).
  { intros z Hz.
    set (f := fun i => hi8 (crc16tab_at tab (Z.of_nat i))).
    rewrite (nth_indep _ 0 (f 0%nat)) by (rewrite length_map, length_seq; lia).
    rewrite map_nth, seq_nth by lia.
    unfold f. rewrite Nat.add_0_l, Z2Nat.id by lia. reflexivity. }
  rewrite !Hnth in H by assumption.
  apply orb_true_iff in H. destruct H as [H|H].
  - apply negb_true_iff, Z.eqb_neq in H. contradiction.
  - apply Nat.eqb_eq in H. lia.
Qed.

Lemma lxor_cancel_l a b b' : Z.lxor a b = Z.lxor a b' -> b = b'.
Proof.
  intros H. apply (f_equal (Z.lxor a)) in H.
  rewrite <- !Z.lxor_assoc, Z.lxor_nilpotent, !Z.lxor_0_l in H. exact H.
Qed.

Lemma lxor_cancel_r a a' b : Z.lxor a b = Z.lxor a' b -> a = a'.
Proof. rewrite !(Z.lxor_comm _ b). apply lxor_cancel_l. Qed.

Lemma lo8_small x : 0 <= x < 256 -> lo8 x = x.
Proof.
  intros H. unfold lo8. change 0xFF with (Z.ones 8).
  rewrite Z.land_ones by lia. apply Z.mod_small. exact H.
Qed.

Lemma lo8_range x : 0 <= lo8 x < 256.
Proof.
  unfold lo8. change 0xFF with (Z.ones 8).
  rewrite Z.land_ones by lia. apply Z.mod_pos_bound. reflexivity.
Qed.

Lemma lo8_lxor a b : lo8 (Z.lxor a b) = Z.lxor (lo8 a) (lo8 b).
Proof.
  unfold lo8. apply Z.bits_inj'. intros n Hn.
  rewrite Z.land_spec, !Z.lxor_spec, !Z.land_spec.
  destruct (Z.testbit a n), (Z.testbit b n), (Z.testbit 0xFF n); reflexivity.
Qed.

Lemma split_hi_lo c : 0 <= c < 2 ^ 16 -> c = 256 * Z.shiftr c 8 + lo8 c.
Proof.
  intros H. unfold lo8. change 0xFF with (Z.ones 8).
  rewrite Z.land_ones, Z.shiftr_div_pow2 by lia.
  change (2 ^ 8) with 256. apply Z.div_mod. lia.
Qed.

Lemma shiftr8_range c : 0 <= c < 2 ^ 16 -> 0 <= Z.shiftr c 8 < 256.
Proof.
  intros H. rewrite Z.shiftr_div_pow2 by lia. change (2 ^ 8) with 256.
  split; [apply Z.div_pos; lia|apply Z.div_lt_upper_bound; lia].
Qed.

(** ** The tables of reflected CRC-16 polynomials *)

Lemma lxor_mod_pow2 a b k :
  0 <= k -> Z.lxor a b mod 2 ^ k = Z.lxor (a mod 2 ^ k) (b mod 2 ^ k).
Proof.
  intros Hk. rewrite <- !Z.land_ones by exact Hk.
  apply Z.bits_inj'. intros n Hn.
  rewrite Z.land_spec, !Z.lxor_spec, !Z.land_spec.
  destruct (Z.testbit a n), (Z.testbit b n), (Z.testbit (Z.ones k) n); reflexivity.
Qed.

Lemma lxor_range a b n :
  0 <= n -> 0 <= a < 2 ^ n -> 0 <= b < 2 ^ n -> 0 <= Z.lxor a b < 2 ^ n.
Proof.
  intros Hn Ha Hb.
  assert (H : Z.lxor a b mod 2 ^ n = Z.lxor a b)
    by (rewrite lxor_mod_pow2, !Z.mod_small by assumption; reflexivity).
  rewrite <- H. apply Z.mod_pos_bound. apply Z.pow_pos_nonneg; lia.
Qed.

Lemma crc16_round_lxor poly c :
  crc16_round poly c = Z.lxor (Z.shiftr c 1) (feedback poly c).
Proof.
  unfold crc16_round, feedback. destruct (Z.odd c); [reflexivity|].
  rewrite Z.lxor_0_r. reflexivity.
Qed.

Lemma mod_pow2_succ c k :
  0 <= k -> c mod 2 ^ (k + 1) = c mod 2 + 2 * (Z.shiftr c 1 mod 2 ^ k).
Proof.
  intros Hk. rewrite Z.pow_add_r, Z.mul_comm by lia. change (2 ^ 1) with 2.
  rewrite Z.rem_mul_r by lia.
  rewrite Z.shiftr_div_pow2 by lia. reflexivity.
Qed.

Lemma mod_pow2_succ_eq c c' k :
  0 <= k -> c mod 2 ^ (k + 1) = c' mod 2 ^ (k + 1) ->
  Z.odd c = Z.odd c' /\ Z.shiftr c 1 mod 2 ^ k = Z.shiftr c' 1 mod 2 ^ k.
Proof.
  intros Hk H. rewrite !mod_pow2_succ in H by exact Hk.
  rewrite !Zmod_odd in H.
  destruct (Z.odd c), (Z.odd c'); split; try reflexivity; lia.
Qed.

Lemma crc16_round_mod poly c c' k :
  0 <= k -> c mod 2 ^ (k + 1) = c' mod 2 ^ (k + 1) ->
  crc16_round poly c mod 2 ^ k = crc16_round poly c' mod 2 ^ k.
Proof.
  intros Hk H. destruct (mod_pow2_succ_eq c c' k Hk H) as [Hodd Hhi].
  rewrite !crc16_round_lxor, !lxor_mod_pow2 by exact Hk.
  unfold feedback. rewrite Hodd, Hhi. reflexivity.
Qed.

Lemma shiftr_crc16_round poly c k :
  0 <= k ->
  Z.shiftr (crc16_round poly c) k
  = Z.lxor (Z.shiftr c (k + 1)) (Z.shiftr (feedback poly c) k).
Proof.
  intros Hk. rewrite crc16_round_lxor, Z.shiftr_lxor, Z.shiftr_shiftr by lia.
  rewrite (Z.add_comm 1 k). reflexivity.
Qed.

(** [k] rounds turn [c] into [c >> k] xor a value that depends on the low
    [k] bits of [c] only. *)
Lemma crc16_rounds_low k : forall poly c c',
  c mod 2 ^ Z.of_nat k = c' mod 2 ^ Z.of_nat k ->
  Z.lxor (crc16_rounds k poly c) (Z.shiftr c (Z.of_nat k))
  = Z.lxor (crc16_rounds k poly c') (Z.shiftr c' (Z.of_nat k)).
Proof.
  induction k as [|k IH]; intros poly c c' H.
  - cbn [crc16_rounds]. rewrite !Z.shiftr_0_r, !Z.lxor_nilpotent. reflexivity.
  - cbn [crc16_rounds].
    rewrite Nat2Z.inj_succ, <- Z.add_1_r in H |- *.
    destruct (mod_pow2_succ_eq c c' (Z.of_nat k) (Nat2Z.is_nonneg k) H) as [Hodd _].
    pose proof (crc16_round_mod poly c c' (Z.of_nat k) (Nat2Z.is_nonneg k) H) as Hd.
    specialize (IH poly _ _ Hd).
    rewrite !shiftr_crc16_round in IH by lia.
    unfold feedback in IH. rewrite Hodd in IH.
    rewrite <- !Z.lxor_assoc in IH. apply lxor_cancel_r in IH. exact IH.
Qed.

Lemma crc16_round_range poly c :
  0 <= poly < 2 ^ 16 -> 0 <= c < 2 ^ 16 -> 0 <= crc16_round poly c < 2 ^ 16.
Proof.
  intros Hp Hc.
  assert (Hs : 0 <= Z.shiftr c 1 < 2 ^ 16).
  { rewrite Z.shiftr_div_pow2 by lia. change (2 ^ 1) with 2.
    split; [apply Z.div_pos; lia|]. apply Z.div_lt_upper_bound; lia. }
  rewrite crc16_round_lxor. apply lxor_range; [lia|exact Hs|].
  unfold feedback. destruct (Z.odd c); lia.
Qed.

Lemma crc16_rounds_range k : forall poly c,
  0 <= poly < 2 ^ 16 -> 0 <= c < 2 ^ 16 -> 0 <= crc16_rounds k poly c < 2 ^ 16.
Proof.
  induction k as [|k IH]; intros poly c Hp Hc; cbn [crc16_rounds]; [exact Hc|].
  apply IH; [exact Hp|]. apply crc16_round_range; assumption.
Qed.

(** With the x^0 term in the polynomial (bit 15 of its reflected form), the
    top bit after a round is the bit shifted out. *)
Lemma crc16_round_top poly c :
  2 ^ 15 <= poly < 2 ^ 16 -> 0 <= c < 2 ^ 16 ->
  Z.shiftr (crc16_round poly c) 15 = if Z.odd c then 1 else 0.
Proof.
  intros Hp Hc. rewrite shiftr_crc16_round by lia.
  rewrite (Z.shiftr_div_pow2 c) by lia. rewrite (Z.div_small c) by (simpl; lia).
  rewrite Z.lxor_0_l. unfold feedback. destruct (Z.odd c); [|reflexivity].
  rewrite Z.shiftr_div_pow2 by lia.
  assert (H : 1 <= poly / 2 ^ 15 < 2).
  { split; [apply Z.div_le_lower_bound; lia|apply Z.div_lt_upper_bound; lia]. }
  lia.
Qed.

(** The top [k] bits after [k] rounds determine the low [k] bits before. *)
Lemma crc16_rounds_top k : forall poly x y,
  (k <= 16)%nat ->
  2 ^ 15 <= poly < 2 ^ 16 -> 0 <= x < 2 ^ 16 -> 0 <= y < 2 ^ 16 ->
  Z.shiftr (crc16_rounds k poly x) (16 - Z.of_nat k)
  = Z.shiftr (crc16_rounds k poly y) (16 - Z.of_nat k) ->
  x mod 2 ^ Z.of_nat k = y mod 2 ^ Z.of_nat k.
Proof.
  induction k as [|k IH]; intros poly x y Hk Hp Hx Hy H.
  - rewrite !Z.mod_1_r. reflexivity.
  - cbn [crc16_rounds] in H.
    rewrite Nat2Z.inj_succ, <- Z.add_1_r in H |- *.
    set (dx := crc16_round poly x) in *. set (dy := crc16_round poly y) in *.
    assert (Hdx : 0 <= dx < 2 ^ 16) by (apply crc16_round_range; lia).
    assert (Hdy : 0 <= dy < 2 ^ 16) by (apply crc16_round_range; lia).
    assert (Hlow : dx mod 2 ^ Z.of_nat k = dy mod 2 ^ Z.of_nat k).
    { apply (IH poly); try assumption; try lia.
      apply (f_equal (fun z => Z.shiftr z 1)) in H.
      rewrite !Z.shiftr_shiftr in H by lia.
      replace (16 - (Z.of_nat k + 1) + 1) with (16 - Z.of_nat k) in H by lia.
      exact H. }
    pose proof (crc16_rounds_low k poly dx dy Hlow) as E.
    apply (f_equal (fun z => Z.shiftr z (16 - (Z.of_nat k + 1)))) in E.
    rewrite !Z.shiftr_lxor, H in E. apply lxor_cancel_l in E.
    rewrite !Z.shiftr_shiftr in E by lia.
    replace (Z.of_nat k + (16 - (Z.of_nat k + 1))) with 15 in E by lia.
    unfold dx, dy in E. rewrite !crc16_round_top in E by assumption.
    assert (Hodd : Z.odd x = Z.odd y)
      by (destruct (Z.odd x), (Z.odd y); try reflexivity; discriminate).
    unfold dx, dy in Hlow.
    rewrite !crc16_round_lxor, !lxor_mod_pow2 in Hlow by lia.
    unfold feedback in Hlow. rewrite Hodd in Hlow. apply lxor_cancel_r in Hlow.
    rewrite !mod_pow2_succ, !Zmod_odd, Hodd, Hlow by lia. reflexivity.
Qed.

Lemma make_crc16tab_at poly x :
  0 <= x < 256 -> crc16tab_at (make_crc16tab poly) x = crc16_rounds 8 poly x.
Proof.
  intros Hx. unfold crc16tab_at, make_crc16tab.
  set (f := fun i => crc16_rounds 8 poly (Z.of_nat i)).
  rewrite (nth_indep _ 0 (f 0%nat)) by (rewrite length_map, length_seq; lia).
  rewrite map_nth, seq_nth by lia.
  unfold f. rewrite Nat.add_0_l, Z2Nat.id by lia. reflexivity.
Qed.

(** Every reflected polynomial with the x^0 term (bit 15 set) has a table
    whose entries differ pairwise in their high byte. *)
Lemma make_crc16tab_hi_distinct poly :
  2 ^ 15 <= poly < 2 ^ 16 -> tab_hi_distinct (make_crc16tab poly).
Proof.
  intros Hp x y Hx Hy H.
  rewrite !make_crc16tab_at in H by assumption.
  assert (Hhi : forall z, 0 <= z < 256 ->
            hi8 (crc16_rounds 8 poly z) = Z.shiftr (crc16_rounds 8 poly z) 8).
  { intros z Hz. unfold hi8. fold (lo8 (Z.shiftr (crc16_rounds 8 poly z) 8)).
    apply lo8_small, shiftr8_range, crc16_rounds_range; lia. }
  rewrite !Hhi in H by assumption.
  apply (crc16_rounds_top 8 poly x y) in H; try lia.
  change (2 ^ Z.of_nat 8) with 256 in H.
  rewrite !Z.mod_small in H by lia. exact H.
Qed.

Lemma crc16tab_A001_hi_distinct : tab_hi_distinct crc16tab_A001.
Proof. apply (make_crc16tab_hi_distinct 0xA001). lia. Qed.

(** The same, by running the check on the table. *)
Lemma crc16tab_8408_hi_distinct : tab_hi_distinct crc16tab_8408.
Proof. apply tab_hi_distinctb_sound. vm_compute. reflexivity. Qed.

Section Single_byte.

Variable crc16tab : list Z.
Hypothesis Htab : tab_hi_distinct crc16tab.

(** The high byte of the new register is the high byte of the table
    entry, the low byte is the old high byte xor the entry's low byte. *)
Lemma hi8_crc16_step c d :
  0 <= c < 2 ^ 16 -> hi8 (crc16_step crc16tab c d) = hi8 (tab_entry crc16tab c d).
Proof.
  intros Hc. unfold crc16_step, u16, hi8. fold (tab_entry crc16tab c d).
  rewrite <- Z.land_ones by lia.
  rewrite Z.shiftr_land, Z.shiftr_lxor, Z.shiftr_shiftr by lia.
  rewrite (Z.shiftr_div_pow2 c (8 + 8)) by lia.
  rewrite (Z.div_small c) by (simpl; lia).
  rewrite Z.lxor_0_l, <- Z.land_assoc.
  reflexivity.
Qed.

Lemma lo8_crc16_step c d :
  0 <= c < 2 ^ 16 ->
  lo8 (crc16_step crc16tab c d) = Z.lxor (Z.shiftr c 8) (lo8 (tab_entry crc16tab c d)).
Proof.
  intros Hc. unfold crc16_step, u16. fold (tab_entry crc16tab c d).
  rewrite <- Z.land_ones by lia. unfold lo8 at 1.
  rewrite <- Z.land_assoc. change (Z.land (Z.ones 16) 0xFF) with 0xFF.
  fold (lo8 (Z.lxor (Z.shiftr c 8) (tab_entry crc16tab c d))).
  rewrite lo8_lxor, (lo8_small (Z.shiftr c 8)) by (apply shiftr8_range; exact Hc).
  reflexivity.
Qed.

Lemma index_eq c d c' d' :
  0 <= c < 2 ^ 16 -> 0 <= c' < 2 ^ 16 ->
  crc16_step crc16tab c d = crc16_step crc16tab c' d' ->
  lo8 (Z.lxor c d) = lo8 (Z.lxor c' d').
Proof.
  intros Hc Hc' H.
  apply (f_equal hi8) in H. rewrite !hi8_crc16_step in H by assumption.
  unfold tab_entry in H.
  unfold tab_entry in H.
  apply Htab in H; [exact H| apply lo8_range | apply lo8_range].
Qed.

(** Two different bytes send a register to two different registers. *)
Lemma crc16_step_inj_data c d d' :
  0 <= c < 2 ^ 16 -> 0 <= d < 256 -> 0 <= d' < 256 ->
  crc16_step crc16tab c d = crc16_step crc16tab c d' -> d = d'.
Proof.
  intros Hc Hd Hd' H.
  apply index_eq in H; try assumption.
  rewrite !lo8_lxor in H. apply lxor_cancel_l in H.
  rewrite !lo8_small in H by assumption. exact H.
Qed.

(** One byte sends two different registers to two different registers. *)
Lemma crc16_step_inj_crc c c' d :
  0 <= c < 2 ^ 16 -> 0 <= c' < 2 ^ 16 ->
  crc16_step crc16tab c d = crc16_step crc16tab c' d -> c = c'.
Proof.
  intros Hc Hc' H.
  pose proof (index_eq _ _ _ _ Hc Hc' H) as Hidx.
  apply (f_equal lo8) in H. rewrite !lo8_crc16_step in H by assumption.
  unfold tab_entry in H. fold (lo8 (Z.lxor c d)) in H. fold (lo8 (Z.lxor c' d)) in H.
  rewrite Hidx in H. apply lxor_cancel_r in H.
  rewrite !lo8_lxor in Hidx. apply lxor_cancel_r in Hidx.
  rewrite (split_hi_lo c Hc), (split_hi_lo c' Hc'). congruence.
Qed.

Lemma fold_crc16_step_inj l : forall c c',
  0 <= c < 2 ^ 16 -> 0 <= c' < 2 ^ 16 -> c <> c' ->
  fold_left (crc16_step crc16tab) l c <> fold_left (crc16_step crc16tab) l c'.
Proof.
  induction l as [|d l IH]; intros c c' Hc Hc' Hne; cbn [fold_left].
  - exact Hne.
  - apply IH; try apply crc16_step_range.
    intros H. apply Hne. eapply crc16_step_inj_crc; eassumption.
Qed.

End Single_byte.

Lemma CalcCRC16_loop_map (crc16tab : list Z) (h : list byte) n : forall i c,
  CalcCRC16_loop crc16tab n i h c
  = fold_left (crc16_step crc16tab) (map (byte_at h) (seq i n)) c.
Proof.
  induction n as [|n IH]; intros i c; [reflexivity|].
  cbn [CalcCRC16_loop seq map fold_left]. apply IH.
Qed.

Lemma fold_crc16_step_range (crc16tab : list Z) l : forall c,
  0 <= c < 2 ^ 16 -> 0 <= fold_left (crc16_step crc16tab) l c < 2 ^ 16.
Proof.
  induction l as [|d l IH]; intros c Hc; cbn [fold_left]; [exact Hc|].
  apply IH, crc16_step_range.
Qed.

Lemma nth_alter_nth_same f buf : forall i d,
  (i < List.length buf)%nat -> nth i (alter_nth f i buf) d = f (nth i buf d).
Proof.
  induction buf as [|b r IH]; intros i d Hi; simpl in Hi; [lia|].
  destruct i as [|i]; [reflexivity|]. simpl. apply IH. lia.
Qed.

Lemma nth_alter_nth_other f buf : forall i j d,
  i <> j -> nth j (alter_nth f i buf) d = nth j buf d.
Proof.
  induction buf as [|b r IH]; intros i j d Hij.
  - destruct i; reflexivity.
  - destruct i as [|i], j as [|j]; try reflexivity; try congruence.
    simpl. apply IH. congruence.
Qed.

Lemma flip_bit_changes k b :
  0 <= k < 8 -> byte.unsigned (flip_bit k b) <> byte.unsigned b.
Proof.
  intros Hk.
  assert (Hcases : k = 0 \/ k = 1 \/ k = 2 \/ k = 3 \/ k = 4 \/ k = 5 \/ k = 6 \/ k = 7)
    by lia.
  repeat (destruct Hcases as [->|Hcases]); try subst k;
    destruct b; vm_compute; discriminate.
Qed.

(** C8: the checksum is a function of the buffer's bytes (equal buffers give
    equal checksums), and with a table whose 256 entries differ pairwise in
    their high byte (the table of every reflected CRC-16 polynomial is one,
    by [make_crc16tab_hi_distinct]) flipping any single bit of any of the
    bytes [0, 350) changes it. *)
Theorem CalcCRC16_single_bit_flip (crc16tab : list Z) (ndshdr : list byte)
        (i : nat) (k : Z) :
  tab_hi_distinct crc16tab ->
  (i < 350)%nat -> (i < List.length ndshdr)%nat -> 0 <= k < 8 ->
  (forall other, other = ndshdr ->
     CalcCRC16 crc16tab other = CalcCRC16 crc16tab ndshdr) /\
  CalcCRC16 crc16tab (flip_bit_at i k ndshdr) <> CalcCRC16 crc16tab ndshdr.
Proof.
  intros Htab Hi Hlen Hk. split; [intros other ->; reflexivity|].
  unfold CalcCRC16. rewrite !CalcCRC16_loop_map.
  replace 350%nat with (i + S (349 - i))%nat by lia.
  rewrite seq_app, !map_app, !fold_left_app. cbn [seq map fold_left].
  rewrite Nat.add_0_l.
  set (h' := flip_bit_at i k ndshdr).
  assert (Hpre : map (byte_at h') (seq 0 i) = map (byte_at ndshdr) (seq 0 i)).
  { apply map_ext_in. intros j Hj. apply in_seq in Hj.
    unfold byte_at, h', flip_bit_at. rewrite nth_alter_nth_other by lia. reflexivity. }
  assert (Hpost : map (byte_at h') (seq (S i) (349 - i))
                  = map (byte_at ndshdr) (seq (S i) (349 - i))).
  { apply map_ext_in. intros j Hj. apply in_seq in Hj.
    unfold byte_at, h', flip_bit_at. rewrite nth_alter_nth_other by lia. reflexivity. }
  rewrite Hpre, Hpost.
  set (c := fold_left (crc16_step crc16tab) (map (byte_at ndshdr) (seq 0 i)) 0xFFFF).
  assert (Hc : 0 <= c < 2 ^ 16) by (apply fold_crc16_step_range; lia).
  apply fold_crc16_step_inj; try assumption; try apply crc16_step_range.
  intros Hstep.
  apply (crc16_step_inj_data crc16tab Htab) in Hstep;
    try assumption; try apply byte_at_range.
  unfold byte_at, h', flip_bit_at in Hstep.
  rewrite nth_alter_nth_same in Hstep by exact Hlen.
  exact (flip_bit_changes k _ Hk Hstep).
Qed.

Lemma CalcCRC16_single_bit_flip_witness :
  tab_hi_distinct crc16tab_A001 /\
  CalcCRC16 crc16tab_A001 (flip_bit_at 349 7 scenario_header)
  <> CalcCRC16 crc16tab_A001 scenario_header.
Proof.
  split; [exact crc16tab_A001_hi_distinct|].
  apply (CalcCRC16_single_bit_flip crc16tab_A001 scenario_header 349 7).
  - exact crc16tab_A001_hi_distinct.
  - apply Nat.ltb_lt. reflexivity.
  - apply Nat.ltb_lt. vm_compute. reflexivity.
  - lia.
Defined.

(** ** The loader *)

Section Loader_facts.

Variable crc16tab : list Z.
Variable lay : nds_hdr_layout.
Variable memory : list MEMARRAY.
Variable add_segm_ok : list event -> MEMARRAY -> bool.

Lemma qlsize_qlread li buf size : qlsize (snd (qlread li buf size)) = qlsize li.
Proof. reflexivity. Qed.

Lemma qlsize_qlseek li pos : qlsize (qlseek li pos) = qlsize li.
Proof. reflexivity. Qed.

(** [load_file] with its two branches on the answer read as one. *)
Lemma load_file_eq g li answer :
  load_file lay memory add_segm_ok g li answer =
  let h := read_header lay g li in
  let a := chose_ARM9 answer in
  let g1 := mk_globals h (mk_inf (image_entry_address lay a h)
                                 (image_entry_address lay a h)
                                 (start_cs (inf g))) in
  let calls := [set_processor_type (processor_of a)] in
  if u32 answer =? BADADDR then qexit at_cancel 1 (mk_globals h (inf g)) []
  else if qlsize li <? u32 (image_rom_offset lay a h + image_size lay a h)
       then qexit at_sanitycheck 1 g1 calls
       else map_image lay memory add_segm_ok g1 calls
                      (image_ram_address lay a h)
                      (u32 (image_ram_address lay a h + image_size lay a h))
                      (s32 (image_rom_offset lay a h)) a.
Proof.
  unfold load_file, read_header, chose_ARM9. cbv zeta.
  rewrite qlsize_qlread, qlsize_qlseek, !u32_add_s32.
  destruct (u32 answer =? BADADDR); [reflexivity|].
  destruct (answer =? 0); reflexivity.
Qed.

Lemma found_mem_block_iff ms s e :
  found_mem_block ms s e = true <-> exists r, In r ms /\ block_test s e r.
Proof.
  unfold block_test. induction ms as [|m ms IH]; cbn [found_mem_block].
  - split; [discriminate|intros [r [[] _]]].
  - destruct ((s >=? mem_start m) || (e <=? mem_end m)) eqn:Hm.
    + split; [intros _|reflexivity].
      exists m. split; [left; reflexivity|].
      apply orb_true_iff in Hm. destruct Hm as [Hm|Hm].
      * left. rewrite Z.geb_leb in Hm. apply Z.leb_le in Hm. lia.
      * right. apply Z.leb_le. exact Hm.
    + rewrite IH. apply orb_false_iff in Hm. destruct Hm as [Hs He].
      rewrite Z.geb_leb in Hs. apply Z.leb_gt in Hs. apply Z.leb_gt in He.
      split.
      * intros [r [Hin Hr]]. exists r. split; [right; exact Hin|exact Hr].
      * intros [r [[<-|Hin] Hr]]; [lia|]. exists r. split; assumption.
Qed.

Lemma found_mem_block_false ms s e :
  found_mem_block ms s e = false <-> forall r, In r ms -> ~ block_test s e r.
Proof.
  split.
  - intros H r Hin Hr.
    assert (Ht : found_mem_block ms s e = true)
      by (apply found_mem_block_iff; exists r; split; assumption).
    congruence.
  - intros H. destruct (found_mem_block ms s e) eqn:Hf; [|reflexivity].
    apply found_mem_block_iff in Hf. destruct Hf as [r [Hin Hr]].
    destruct (H r Hin Hr).
Qed.

(** When every block got its segment, the calls made are one [add_segm]
    per block, in table order. *)
Lemma create_segments_calls ms : forall calls,
  fst (create_segments add_segm_ok ms calls) = true ->
  snd (create_segments add_segm_ok ms calls) = calls ++ map seg_call ms.
Proof.
  induction ms as [|m ms IH]; intros calls H; cbn [create_segments] in *.
  - cbn. rewrite app_nil_r. reflexivity.
  - destruct (add_segm_ok calls m); [|discriminate].
    rewrite IH by exact H. rewrite <- app_assoc. reflexivity.
Qed.

Lemma create_segments_granted ms : forall calls,
  (forall c m, add_segm_ok c m = true) ->
  fst (create_segments add_segm_ok ms calls) = true.
Proof.
  induction ms as [|m ms IH]; intros calls H; cbn [create_segments].
  - reflexivity.
  - rewrite H. apply IH. exact H.
Qed.

(** When the loop ran to its end, the kernel granted every block, each with
    the calls made before it. *)
Lemma create_segments_each ms : forall calls,
  fst (create_segments add_segm_ok ms calls) = true ->
  forall granted m rest,
    ms = granted ++ m :: rest ->
    add_segm_ok (calls ++ map seg_call granted) m = true.
Proof.
  induction ms as [|m0 ms IH]; intros calls H granted m rest E.
  - destruct granted; discriminate.
  - cbn [create_segments] in H. cbv zeta in H. fold (seg_call m0) in H.
    destruct (add_segm_ok calls m0) eqn:Hm0; [|discriminate].
    destruct granted as [|g0 granted]; cbn [app map] in *.
    + injection E as -> _. rewrite app_nil_r. exact Hm0.
    + injection E as <- E.
      specialize (IH _ H granted m rest E).
      rewrite <- app_assoc in IH. exact IH.
Qed.

(** The three ways out of [map_image]. *)
Lemma map_image_mem_block g calls s e off a :
  found_mem_block memory s e = false ->
  map_image lay memory add_segm_ok g calls s e off a = qexit at_mem_block 1 g calls.
Proof. intros H. unfold map_image. rewrite H. reflexivity. Qed.

Lemma map_image_found g calls s e off a :
  found_mem_block memory s e = true ->
  exit_site_of (map_image lay memory add_segm_ok g calls s e off a) <> Some at_mem_block.
Proof.
  intros H. unfold map_image. rewrite H. cbn [negb]. cbv zeta.
  destruct (fst (create_segments _ _ _)); cbn; congruence.
Qed.

Lemma map_image_returned g calls s e off a l g' calls' :
  map_image lay memory add_segm_ok g calls s e off a = returned l g' calls' ->
  found_mem_block memory s e = true /\
  fst (create_segments add_segm_ok memory (calls ++ [set_selector 1 0])) = true /\
  l = mk_locals s e off a (image_entry_address lay a (hdr g)) /\
  calls' = calls ++ [set_selector 1 0] ++ map seg_call memory
           ++ [set_segm_addressing s 1; file2base off s e FILEREG_PATCHABLE]
           ++ describe_rom lay (hdr g) s e a (image_entry_address lay a (hdr g)).
Proof.
  unfold map_image. cbv zeta.
  destruct (found_mem_block memory s e); cbn [negb]; [|discriminate].
  destruct (fst (create_segments _ _ _)) eqn:Hseg; cbn [negb]; [|discriminate].
  intros H. injection H as <- _ <-.
  rewrite (create_segments_calls _ _ Hseg).
  repeat split. rewrite <- !app_assoc. reflexivity.
Qed.

End Loader_facts.

(** ** Format recognition *)

Lemma qlread_header_full lay g li :
  (sizeof_nds_hdr lay <= List.length (li_bytes li))%nat ->
  fst (fst (qlread (qlseek li 0) (hdr g) (sizeof_nds_hdr lay)))
  = Z.of_nat (sizeof_nds_hdr lay) /\
  firstn (sizeof_nds_hdr lay) (read_header lay g li)
  = firstn (sizeof_nds_hdr lay) (li_bytes li).
Proof.
  intros Hlen. unfold read_header, qlread, qlseek. cbn [fst snd li_pos li_bytes skipn].
  assert (Hchunk : List.length (firstn (sizeof_nds_hdr lay) (li_bytes li))
                   = sizeof_nds_hdr lay) by (apply firstn_length_le; exact Hlen).
  split.
  - rewrite Hchunk. reflexivity.
  - rewrite firstn_app, Hchunk, Nat.sub_diag, firstn_O, app_nil_r.
    rewrite firstn_firstn, Nat.min_id. reflexivity.
Qed.

(** C10: for every file and every invocation index [n <> 0], [accept_file]
    returns 0 with the file neither sought nor read, the header buffer as it
    was and no kernel call made; a non-zero result therefore comes from the
    first invocation only. *)
Theorem accept_file_first_invocation_only crc16tab lay g li n :
  n <> 0 ->
  accept_file crc16tab lay g li n = mk_accept 0 g li None [] /\
  (forall m, acc_ret (accept_file crc16tab lay g li m) <> 0 -> m = 0).
Proof.
  intros Hn. split.
  - unfold accept_file. apply Z.eqb_neq in Hn. rewrite Hn. reflexivity.
  - intros m Hm. destruct (Z.eq_dec m 0) as [|Hne]; [assumption|].
    exfalso. apply Hm. unfold accept_file.
    apply Z.eqb_neq in Hne. rewrite Hne. reflexivity.
Qed.

(** C5: a file shorter than [sizeof(nds_hdr)] is not recognised:
    [accept_file] returns 0, whatever the invocation index, before anything
    is read, so that no header is decoded (the buffer [hdr] is untouched). *)
Theorem accept_file_short_file crc16tab lay g li n :
  (List.length (li_bytes li) < sizeof_nds_hdr lay)%nat ->
  accept_file crc16tab lay g li n = mk_accept 0 g li None [].
Proof.
  intros Hlen. unfold accept_file.
  destruct (n =? 0); cbn [negb]; [|reflexivity].
  cbv zeta. unfold qlsize.
  destruct (Z.ltb_spec (Z.of_nat (List.length (li_bytes li)))
                       (Z.of_nat (sizeof_nds_hdr lay))) as [_|H];
    [reflexivity|lia].
Qed.

(** C3: for a file at least [sizeof(nds_hdr)] bytes long, the header read
    is the file's first [sizeof(nds_hdr)] bytes and the probing call of
    [accept_file] (the first invocation) answers [1 | ACCEPT_FIRST] exactly
    when [CalcCRC16] of these bytes equals their [headerCRC16] field, and 0
    otherwise; the file is recognised by some invocation if and only if the
    two agree.  Nothing else in the bytes takes part. *)
Theorem accept_file_checksum_only crc16tab lay g li :
  (sizeof_nds_hdr lay <= List.length (li_bytes li))%nat ->
  let h := read_header lay g li in
  let r := accept_file crc16tab lay g li 0 in
  firstn (sizeof_nds_hdr lay) h = firstn (sizeof_nds_hdr lay) (li_bytes li) /\
  hdr (acc_globals r) = h /\
  (acc_ret r = Z.lor 1 ACCEPT_FIRST <-> CalcCRC16 crc16tab h = headerCRC16 lay h) /\
  (acc_ret r = 0 <-> CalcCRC16 crc16tab h <> headerCRC16 lay h) /\
  ((exists n, acc_ret (accept_file crc16tab lay g li n) <> 0)
   <-> CalcCRC16 crc16tab h = headerCRC16 lay h).
Proof.
  intros Hlen h r.
  destruct (qlread_header_full lay g li Hlen) as [Hgot Hfirst].
  assert (Hr : r = if CalcCRC16 crc16tab h =? headerCRC16 lay h
                   then mk_accept (Z.lor 1 ACCEPT_FIRST) (mk_globals h (inf g))
                          (snd (qlread (qlseek li 0) (hdr g) (sizeof_nds_hdr lay)))
                          (Some "Nintendo DS ROM"%string) [set_processor_type "ARM"]
                   else mk_accept 0 (mk_globals h (inf g))
                          (snd (qlread (qlseek li 0) (hdr g) (sizeof_nds_hdr lay)))
                          None []).
  { unfold r, accept_file. cbn [Z.eqb negb]. cbv zeta.
    destruct (Z.ltb_spec (qlsize li) (Z.of_nat (sizeof_nds_hdr lay))) as [H|_];
      [unfold qlsize in H; lia|].
    rewrite Hgot, Z.eqb_refl. cbn [negb hdr].
    change (snd (fst (qlread (qlseek li 0) (hdr g) (sizeof_nds_hdr lay)))) with h.
    destruct (CalcCRC16 crc16tab h =? headerCRC16 lay h); reflexivity. }
  assert (Hfirst_only : forall n, acc_ret (accept_file crc16tab lay g li n) <> 0 ->
                                  acc_ret r <> 0).
  { intros n Hn. destruct (Z.eq_dec n 0) as [->|Hne]; [exact Hn|].
    exfalso. apply Hn. unfold accept_file.
    apply Z.eqb_neq in Hne. rewrite Hne. reflexivity. }
  assert (Hret : acc_ret r = if CalcCRC16 crc16tab h =? headerCRC16 lay h
                             then Z.lor 1 ACCEPT_FIRST else 0)
    by (rewrite Hr; destruct (CalcCRC16 crc16tab h =? headerCRC16 lay h); reflexivity).
  assert (Hhdr : hdr (acc_globals r) = h)
    by (rewrite Hr; destruct (CalcCRC16 crc16tab h =? headerCRC16 lay h); reflexivity).
  assert (Hr0 : accept_file crc16tab lay g li 0 = r) by reflexivity.
  clearbody r. clear Hr.
  split; [exact Hfirst|]. split; [exact Hhdr|].
  change (Z.lor 1 ACCEPT_FIRST) with 32769 in *.
  destruct (Z.eqb_spec (CalcCRC16 crc16tab h) (headerCRC16 lay h)) as [Heq|Hne].
  - split; [tauto|]. split; [split; [lia|tauto]|].
    split; [intros _; exact Heq|intros _].
    exists 0. rewrite Hr0. lia.
  - split; [split; [lia|tauto]|]. split; [tauto|].
    split; [|tauto].
    intros [n Hn]. apply Hfirst_only in Hn. lia.
Qed.

Lemma accept_file_first_invocation_only_witness :
  accept_file crc16tab_A001 nds_layout (globals0 nds_layout) sealed_rom 1
  = mk_accept 0 (globals0 nds_layout) sealed_rom None [] /\
  acc_ret (accept_file crc16tab_A001 nds_layout (globals0 nds_layout) sealed_rom 0)
  = 0x8001.
Proof.
  split.
  - apply (accept_file_first_invocation_only
             crc16tab_A001 nds_layout (globals0 nds_layout) sealed_rom 1).
    lia.
  - vm_compute. reflexivity.
Defined.

Lemma accept_file_short_file_witness :
  (List.length (li_bytes ten_bytes) < sizeof_nds_hdr nds_layout)%nat /\
  accept_file crc16tab_A001 nds_layout (globals0 nds_layout) ten_bytes 0
  = mk_accept 0 (globals0 nds_layout) ten_bytes None [].
Proof.
  assert (H : (List.length (li_bytes ten_bytes) < sizeof_nds_hdr nds_layout)%nat)
    by (apply Nat.ltb_lt; vm_compute; reflexivity).
  split; [exact H|].
  apply (accept_file_short_file crc16tab_A001 nds_layout (globals0 nds_layout)
                                ten_bytes 0 H).
Defined.

Lemma accept_file_checksum_only_witness :
  acc_ret (accept_file crc16tab_A001 nds_layout (globals0 nds_layout) sealed_rom 0)
  = Z.lor 1 ACCEPT_FIRST /\
  acc_ret (accept_file crc16tab_A001 nds_layout (globals0 nds_layout) scenario_rom 0)
  = 0.
Proof.
  split.
  - apply (accept_file_checksum_only crc16tab_A001 nds_layout
                                     (globals0 nds_layout) sealed_rom).
    + apply Nat.leb_le. vm_compute. reflexivity.
    + vm_compute. reflexivity.
  - apply (accept_file_checksum_only crc16tab_A001 nds_layout
                                     (globals0 nds_layout) scenario_rom).
    + apply Nat.leb_le. vm_compute. reflexivity.
    + vm_compute. discriminate.
Defined.

(** ** The layout checks of load_file *)

(** C1: once the dialog was answered and the sanity check passed, the
    search for a legal RAM block succeeds, and the run does not leave at
    the RAM-block exit, if and only if some entry [r] of [memory] has
    [startAddress >= r.start] or [endAddress <= r.end]; an entry with
    [ramAddress >= r.start] is enough, whatever the end address; and when
    no entry passes the test the run ends in [qexit(1)] at the RAM-block
    exit, nothing mapped and nothing returned. *)
Theorem mem_block_test_is_disjunction lay memory add_segm_ok g li answer :
  let h := read_header lay g li in
  let a := chose_ARM9 answer in
  let startAddress := image_ram_address lay a h in
  let endAddress := u32 (image_ram_address lay a h + image_size lay a h) in
  let run := load_file lay memory add_segm_ok g li answer in
  u32 answer <> BADADDR ->
  qlsize li >= u32 (image_rom_offset lay a h + image_size lay a h) ->
  (found_mem_block memory startAddress endAddress = true <->
   exists r, In r memory /\
             (startAddress >= mem_start r \/ endAddress <= mem_end r)) /\
  (exit_site_of run <> Some at_mem_block <->
   exists r, In r memory /\
             (startAddress >= mem_start r \/ endAddress <= mem_end r)) /\
  (forall r, In r memory -> startAddress >= mem_start r ->
             exit_site_of run <> Some at_mem_block) /\
  ((forall r, In r memory ->
              ~ (startAddress >= mem_start r \/ endAddress <= mem_end r)) ->
   exists g', run = qexit at_mem_block 1 g' [set_processor_type (processor_of a)]).
Proof.
  intros h a s e run Hans Hsize.
  assert (Hrun : run = map_image lay memory add_segm_ok
                   (mk_globals h (mk_inf (image_entry_address lay a h)
                                         (image_entry_address lay a h)
                                         (start_cs (inf g))))
                   [set_processor_type (processor_of a)] s e
                   (s32 (image_rom_offset lay a h)) a).
  { unfold run. rewrite load_file_eq. cbv zeta. fold h a.
    apply Z.eqb_neq in Hans. rewrite Hans.
    destruct (Z.ltb_spec (qlsize li)
                (u32 (image_rom_offset lay a h + image_size lay a h))) as [H|_];
      [lia|reflexivity]. }
  clearbody run. subst run.
  pose proof (found_mem_block_iff memory s e) as Hiff. unfold block_test in Hiff.
  assert (Hsite : exit_site_of
            (map_image lay memory add_segm_ok
               (mk_globals h (mk_inf (image_entry_address lay a h)
                                     (image_entry_address lay a h)
                                     (start_cs (inf g))))
               [set_processor_type (processor_of a)] s e
               (s32 (image_rom_offset lay a h)) a) <> Some at_mem_block
          <-> found_mem_block memory s e = true).
  { split.
    - intros Hne. destruct (found_mem_block memory s e) eqn:Hf; [reflexivity|].
      exfalso. apply Hne. rewrite map_image_mem_block by exact Hf. reflexivity.
    - apply map_image_found. }
  split; [exact Hiff|]. split; [rewrite Hsite; exact Hiff|]. split.
  - intros r Hin Hr. apply Hsite, Hiff. exists r. split; [exact Hin|left; exact Hr].
  - intros Hnone. eexists. apply map_image_mem_block.
    apply found_mem_block_false. exact Hnone.
Qed.

Lemma mem_block_test_is_disjunction_witness :
  exit_site_of (load_file nds_layout ram_blocks kernel_accepts
                          (globals0 nds_layout) scenario_rom 1)
  <> Some at_mem_block /\
  exists g',
    load_file nds_layout small_block kernel_accepts
              (globals0 nds_layout) straddling_rom 0
    = qexit at_mem_block 1 g' [set_processor_type "ARM710A"].
Proof.
  split.
  - apply (mem_block_test_is_disjunction nds_layout ram_blocks kernel_accepts
             (globals0 nds_layout) scenario_rom 1)
      with (r := mk_mem 0x02000000 0x023FFFFF).
    + vm_compute. discriminate.
    + vm_compute. discriminate.
    + left. reflexivity.
    + vm_compute. discriminate.
  - apply (mem_block_test_is_disjunction nds_layout small_block kernel_accepts
             (globals0 nds_layout) straddling_rom 0).
    + vm_compute. discriminate.
    + vm_compute. discriminate.
    + intros r [<-|[]]. vm_compute. intros [H|H]; apply H; reflexivity.
Defined.

Lemma filter_seg_calls ms :
  filter is_add_segm (map seg_call ms) = map seg_call ms /\
  filter is_file2base (map seg_call ms) = [].
Proof.
  induction ms as [|m ms [IH1 IH2]]; [split; reflexivity|].
  cbn. rewrite IH1, IH2. split; reflexivity.
Qed.

Lemma filter_describe_rom lay h s e a entry :
  filter is_add_segm (describe_rom lay h s e a entry) = [] /\
  filter is_file2base (describe_rom lay h s e a entry) = [].
Proof.
  unfold describe_rom.
  destruct (negb (entry =? s)); split; reflexivity.
Qed.

(** A run that returns went through every step of [load_file]. *)
Lemma load_file_returned lay memory add_segm_ok g li answer l g' calls :
  load_file lay memory add_segm_ok g li answer = returned l g' calls ->
  let h := read_header lay g li in
  let a := chose_ARM9 answer in
  let s := image_ram_address lay a h in
  let e := u32 (image_ram_address lay a h + image_size lay a h) in
  let off := s32 (image_rom_offset lay a h) in
  u32 answer <> BADADDR /\
  qlsize li >= u32 (image_rom_offset lay a h + image_size lay a h) /\
  found_mem_block memory s e = true /\
  fst (create_segments add_segm_ok memory
         [set_processor_type (processor_of a); set_selector 1 0]) = true /\
  l = mk_locals s e off a (image_entry_address lay a h) /\
  calls = [set_processor_type (processor_of a); set_selector 1 0]
          ++ map seg_call memory
          ++ [set_segm_addressing s 1; file2base off s e FILEREG_PATCHABLE]
          ++ describe_rom lay h s e a (image_entry_address lay a h).
Proof.
  rewrite load_file_eq. cbv zeta.
  destruct (Z.eqb_spec (u32 answer) BADADDR) as [|Hans]; [discriminate|].
  destruct (Z.ltb_spec (qlsize li)
              (u32 (image_rom_offset lay (chose_ARM9 answer) (read_header lay g li)
                    + image_size lay (chose_ARM9 answer) (read_header lay g li))))
    as [|Hsize]; [discriminate|].
  intros H. apply map_image_returned in H.
  destruct H as (Hfound & Hsegs & Hl & Hcalls).
  cbn [hdr] in *. repeat split; try assumption. lia.
Qed.

(** C6: on every load that returns, the kernel was asked for exactly one
    segment per entry of [memory], in table order, each named RAM and of
    class CODE, whichever block the image lies in, and it granted every one
    of them (each call, made after the calls for the blocks before it, was
    answered true); the single [file2base] copy of the image into
    [startEA, endEA) comes after all of these calls, and no segment is
    created after it. *)
Theorem segments_before_copy lay memory add_segm_ok g li answer l g' calls :
  load_file lay memory add_segm_ok g li answer = returned l g' calls ->
  filter is_add_segm calls = map seg_call memory /\
  fst (create_segments add_segm_ok memory
         [set_processor_type (processor_of (chose_ARM9 answer)); set_selector 1 0])
  = true /\
  (forall granted m rest,
     memory = granted ++ m :: rest ->
     add_segm_ok
       ([set_processor_type (processor_of (chose_ARM9 answer)); set_selector 1 0]
        ++ map seg_call granted) m = true) /\
  exists before after,
    calls = before
            ++ file2base (offset l) (startEA l) (endEA l) FILEREG_PATCHABLE
            :: after /\
    filter is_add_segm before = map seg_call memory /\
    filter is_add_segm after = [] /\
    filter is_file2base before = [] /\
    filter is_file2base after = [].
Proof.
  intros H. apply load_file_returned in H. cbv zeta in H.
  destruct H as (_ & _ & _ & Hsegs & -> & ->).
  destruct (filter_seg_calls memory) as [Hs1 Hs2].
  match goal with
  | |- context [describe_rom ?lay ?h ?s ?e ?a ?en] =>
      destruct (filter_describe_rom lay h s e a en) as [Hd1 Hd2]
  end.
  split; [|split; [exact Hsegs|split]].
  - rewrite !filter_app, Hs1, Hd1. cbn. rewrite app_nil_r. reflexivity.
  - apply (create_segments_each add_segm_ok memory _ Hsegs).
  - cbn [offset startEA endEA].
    eexists ([set_processor_type _; set_selector 1 0] ++ map seg_call memory
             ++ [set_segm_addressing _ 1]), _.
    split; [|split; [|split; [|split]]].
    + rewrite <- !app_assoc. cbn [app]. reflexivity.
    + rewrite !filter_app, Hs1. cbn. rewrite app_nil_r. reflexivity.
    + exact Hd1.
    + rewrite !filter_app, Hs2. reflexivity.
    + exact Hd2.
Qed.

Lemma segments_before_copy_witness :
  exists l g' calls,
    load_file nds_layout two_blocks kernel_accepts
              (globals0 nds_layout) scenario_rom 1 = returned l g' calls /\
    filter is_add_segm calls
    = [ add_segm 1 0x02000000 0x023FFFFF "RAM" "CODE";
        add_segm 1 0x037F8000 0x0380FFFF "RAM" "CODE" ].
Proof.
  destruct (load_file nds_layout two_blocks kernel_accepts
                      (globals0 nds_layout) scenario_rom 1)
    as [site code g' calls|l g' calls] eqn:Hrun.
  - vm_compute in Hrun. discriminate.
  - exists l, g', calls. split; [reflexivity|].
    apply (segments_before_copy nds_layout two_blocks kernel_accepts
             (globals0 nds_layout) scenario_rom 1 l g' calls Hrun).
Defined.

Lemma scenario_header_read :
  read_header nds_layout (globals0 nds_layout) scenario_rom = scenario_header.
Proof. vm_compute. reflexivity. Qed.

(** C7, as the code has it: on every load that returns, the start address
    is the chosen image's ram address, the end address is ram address plus
    size reduced modulo 2^32 (the plain sum when it is below 2^32), the
    entry address is the image's entry address, taken as it is, with no
    test against the window, and the rom offset is the image's rom offset,
    taken as it is, whenever the image's bytes lie in the file (rom offset
    + size at most the file length, the file shorter than 2^31 bytes).  The
    header with first-core image (entry 0x02004000, ram 0x02000000, size
    0x1000, rom offset 0x4000) in a file of 0x6000 bytes, with a table
    holding (0x02000000, 0x023FFFFF) and a kernel granting the segments,
    loads with start 0x02000000, end 0x02001000, rom offset 0x4000, entry
    0x02004000, the entry lying outside the window. *)
Theorem load_plan_fields :
  (forall lay memory add_segm_ok g li answer l g' calls,
     load_file lay memory add_segm_ok g li answer = returned l g' calls ->
     let h := read_header lay g li in
     let a := chose_ARM9 answer in
     ARM9 l = a /\
     startEA l = image_ram_address lay a h /\
     endEA l = (image_ram_address lay a h + image_size lay a h) mod 2 ^ 32 /\
     (image_ram_address lay a h + image_size lay a h < 2 ^ 32 ->
      endEA l = image_ram_address lay a h + image_size lay a h) /\
     (image_rom_offset lay a h + image_size lay a h <= qlsize li ->
      qlsize li < 2 ^ 31 ->
      offset l = image_rom_offset lay a h) /\
     entry_point l = image_entry_address lay a h) /\
  (forall memory add_segm_ok,
     In (mk_mem 0x02000000 0x023FFFFF) memory ->
     (forall c m, add_segm_ok c m = true) ->
     exists g' calls,
       load_file nds_layout memory add_segm_ok (globals0 nds_layout) scenario_rom 1
       = returned (mk_locals 0x02000000 0x02001000 0x4000 true 0x02004000) g' calls /\
       ~ (0x02000000 <= 0x02004000 < 0x02001000)).
Proof.
  split.
  - intros lay memory add_segm_ok g li answer l g' calls H h a.
    apply load_file_returned in H. cbv zeta in H. fold h a in H.
    destruct H as (_ & _ & _ & _ & -> & _).
    cbn [ARM9 startEA endEA offset entry_point].
    destruct (image_field_ranges lay a h) as (Hrom & Hram & Hsz).
    repeat split.
    + intros Hsum. apply u32_small. lia.
    + intros Hfit Hfile. apply s32_small. lia.
  - intros memory add_segm_ok Hin Hgrant.
    rewrite load_file_eq. cbv zeta. rewrite scenario_header_read.
    change (chose_ARM9 1) with true.
    change (u32 1 =? BADADDR) with false. cbv iota.
    replace (image_rom_offset nds_layout true scenario_header) with 0x4000
      by (vm_compute; reflexivity).
    replace (image_size nds_layout true scenario_header) with 0x1000
      by (vm_compute; reflexivity).
    replace (image_ram_address nds_layout true scenario_header) with 0x02000000
      by (vm_compute; reflexivity).
    replace (image_entry_address nds_layout true scenario_header) with 0x02004000
      by (vm_compute; reflexivity).
    replace (qlsize scenario_rom) with 0x6000 by (vm_compute; reflexivity).
    change (0x6000 <? u32 (0x4000 + 0x1000)) with false. cbv iota.
    change (u32 (0x02000000 + 0x1000)) with 0x02001000.
    change (s32 0x4000) with 0x4000.
    unfold map_image.
    assert (Hfound : found_mem_block memory 0x02000000 0x02001000 = true).
    { apply found_mem_block_iff. exists (mk_mem 0x02000000 0x023FFFFF).
      split; [exact Hin|]. left. cbn. lia. }
    rewrite Hfound, create_segments_granted by exact Hgrant.
    cbn [negb hdr]. cbv zeta.
    replace (image_entry_address nds_layout true scenario_header) with 0x02004000
      by (vm_compute; reflexivity).
    eexists _, _. split; [reflexivity|lia].
Qed.

Lemma load_plan_fields_witness :
  exists l g' calls,
    load_file nds_layout ram_blocks kernel_accepts
              (globals0 nds_layout) scenario_rom 1 = returned l g' calls /\
    startEA l = 0x02000000 /\ endEA l = 0x02001000 /\
    offset l = 0x4000 /\ entry_point l = 0x02004000.
Proof.
  destruct (proj2 load_plan_fields ram_blocks kernel_accepts
              (or_introl eq_refl) (fun _ _ => eq_refl))
    as (g' & calls & Hrun & _).
  eexists _, g', calls. split; [exact Hrun|].
  destruct (proj1 load_plan_fields _ _ _ _ _ _ _ _ _ Hrun)
    as (_ & Hs & He & _ & Ho & Hen).
  rewrite Hs, He, Hen, scenario_header_read.
  rewrite Ho by (vm_compute; first [discriminate|reflexivity]).
  rewrite scenario_header_read.
  vm_compute. repeat split; reflexivity.
Defined.

(** Counterexample to C7 with the plain sum: an image placed across the top
    of the address space (ram address 0xFFFFF000, size 0x2000), its bytes
    inside the file (rom offset 0x4000, file of 0x6000 bytes), in a file
    that [accept_file] recognises, loads, and the load returns with the end
    address 0x1000, not 0xFFFFF000 + 0x2000. *)
Lemma load_plan_end_wraps :
  acc_ret (accept_file crc16tab_A001 nds_layout (globals0 nds_layout) crossing_rom 0)
  = Z.lor 1 ACCEPT_FIRST /\
  exists l g' calls,
    load_file nds_layout ram_blocks kernel_accepts
              (globals0 nds_layout) crossing_rom 1 = returned l g' calls /\
    arm9_ram_address nds_layout
      (read_header nds_layout (globals0 nds_layout) crossing_rom) = 0xFFFFF000 /\
    arm9_size nds_layout
      (read_header nds_layout (globals0 nds_layout) crossing_rom) = 0x2000 /\
    arm9_rom_offset nds_layout
      (read_header nds_layout (globals0 nds_layout) crossing_rom) = 0x4000 /\
    qlsize crossing_rom = 0x6000 /\
    startEA l = 0xFFFFF000 /\
    offset l = 0x4000 /\
    endEA l = 0x1000 /\
    endEA l <> 0xFFFFF000 + 0x2000.
Proof.
  split; [vm_compute; reflexivity|].
  eexists _, _, _. split; [vm_compute; reflexivity|].
  vm_compute. repeat split; discriminate.
Qed.

(** The sanity check as the code makes it: the run leaves there exactly
    when the file is shorter than the 32-bit sum of rom offset and size. *)
Lemma sanitycheck_iff lay memory add_segm_ok g li answer :
  u32 answer <> BADADDR ->
  let h := read_header lay g li in
  let a := chose_ARM9 answer in
  exit_site_of (load_file lay memory add_segm_ok g li answer) = Some at_sanitycheck
  <-> qlsize li < u32 (image_rom_offset lay a h + image_size lay a h).
Proof.
  intros Hans h a. rewrite load_file_eq. cbv zeta. fold h a.
  apply Z.eqb_neq in Hans. rewrite Hans.
  destruct (Z.ltb_spec (qlsize li)
              (u32 (image_rom_offset lay a h + image_size lay a h))) as [Hlt|Hge].
  - split; [intros _; exact Hlt|reflexivity].
  - split; [|lia].
    unfold map_image. cbv zeta.
    destruct (found_mem_block _ _ _); cbn [negb]; [|discriminate].
    destruct (fst (create_segments _ _ _)); cbn; discriminate.
Qed.

(** Without wrap-around the check is the containment test: an image whose
    rom offset plus size stays below 2^32 and exceeds the file length stops
    the run at the sanity check. *)
Lemma sanitycheck_without_wrap lay memory add_segm_ok g li answer :
  u32 answer <> BADADDR ->
  let h := read_header lay g li in
  let a := chose_ARM9 answer in
  image_rom_offset lay a h + image_size lay a h < 2 ^ 32 ->
  image_rom_offset lay a h + image_size lay a h > qlsize li ->
  exists g',
    load_file lay memory add_segm_ok g li answer
    = qexit at_sanitycheck 1 g' [set_processor_type (processor_of a)].
Proof.
  intros Hans h a Hsmall Hbig. rewrite load_file_eq. cbv zeta. fold h a.
  apply Z.eqb_neq in Hans. rewrite Hans.
  destruct (image_field_ranges lay a h) as (Hrom & _ & Hsz).
  rewrite u32_small by lia.
  destruct (Z.ltb_spec (qlsize li)
              (image_rom_offset lay a h + image_size lay a h)) as [_|Hge]; [|lia].
  eexists. reflexivity.
Qed.

(** The spec's scenario with a file of 0x3000 bytes stops at the sanity
    check. *)
Example scenario_truncated :
  exit_site_of
    (load_file nds_layout ram_blocks kernel_accepts (globals0 nds_layout)
               (linput_of (rom_of scenario_header (Z.to_nat 0x3000))) 1)
  = Some at_sanitycheck.
Proof. vm_compute. reflexivity. Qed.

(** C4, where the code departs from it: the first-core image of
    [wrapped_header] has rom offset 0x4000 and size 0xFFFFE000, so that rom
    offset + size = 0x100002000 exceeds the file length 0x6000; yet
    [load_file] does not stop at the sanity check: it returns, having asked
    for the copy of the image from offset 0x4000.  The file is one that
    [accept_file] recognises (with the table of polynomial 0xA001). *)
Theorem sanitycheck_misses_wrapped_sum :
  let h := read_header nds_layout (globals0 nds_layout) wrapped_rom in
  arm9_rom_offset nds_layout h = 0x4000 /\
  arm9_size nds_layout h = 0xFFFFE000 /\
  qlsize wrapped_rom = 0x6000 /\
  arm9_rom_offset nds_layout h + arm9_size nds_layout h > qlsize wrapped_rom /\
  acc_ret (accept_file crc16tab_A001 nds_layout (globals0 nds_layout) wrapped_rom 0)
  = Z.lor 1 ACCEPT_FIRST /\
  exists g' calls,
    load_file nds_layout ram_blocks kernel_accepts (globals0 nds_layout) wrapped_rom 1
    = returned (mk_locals 0x02000000 0x01FFE000 0x4000 true 0x02000000) g' calls /\
    In (file2base 0x4000 0x02000000 0x01FFE000 FILEREG_PATCHABLE) calls.
Proof.
  cbv zeta. repeat split; try (vm_compute; reflexivity).
  eexists _, _. split; [vm_compute; reflexivity|].
  do 4 right. left. reflexivity.
Qed.

(** C9: the sanity check and the window are computed on 32 bits: whenever
    the dialog was answered, the run stops at the sanity check exactly when
    the file length is below (rom offset + size) mod 2^32, and a run that
    returns has end address (ram address + size) mod 2^32.  So there is a
    header ([wrapped_header]: rom offset + size = 2^32 + 0x2000, above the
    file length 0x6000) whose wrapped sum passes the check and whose load
    returns: rom offset + size <= file length does not hold of every load
    that returns. *)
Theorem layout_arithmetic_is_modular :
  (forall lay memory add_segm_ok g li answer,
     u32 answer <> BADADDR ->
     let h := read_header lay g li in
     let a := chose_ARM9 answer in
     (exit_site_of (load_file lay memory add_segm_ok g li answer)
      = Some at_sanitycheck
      <-> qlsize li < (image_rom_offset lay a h + image_size lay a h) mod 2 ^ 32) /\
     (forall l g' calls,
        load_file lay memory add_segm_ok g li answer = returned l g' calls ->
        endEA l = (image_ram_address lay a h + image_size lay a h) mod 2 ^ 32)) /\
  (let h := read_header nds_layout (globals0 nds_layout) wrapped_rom in
   image_rom_offset nds_layout true h + image_size nds_layout true h >= 2 ^ 32 /\
   image_rom_offset nds_layout true h + image_size nds_layout true h
   > qlsize wrapped_rom /\
   ~ qlsize wrapped_rom
     < (image_rom_offset nds_layout true h + image_size nds_layout true h) mod 2 ^ 32 /\
   exists l g' calls,
     load_file nds_layout ram_blocks kernel_accepts (globals0 nds_layout) wrapped_rom 1
     = returned l g' calls).
Proof.
  split.
  - intros lay memory add_segm_ok g li answer Hans h a. split.
    + apply (sanitycheck_iff lay memory add_segm_ok g li answer Hans).
    + intros l g' calls H. apply load_file_returned in H. cbv zeta in H.
      destruct H as (_ & _ & _ & _ & -> & _). reflexivity.
  - cbv zeta. repeat split; try (vm_compute; discriminate).
    eexists _, _, _. vm_compute. reflexivity.
Qed.

Lemma layout_arithmetic_is_modular_witness :
  exit_site_of
    (load_file nds_layout ram_blocks kernel_accepts (globals0 nds_layout)
               (linput_of (rom_of scenario_header (Z.to_nat 0x3000))) 1)
  = Some at_sanitycheck.
Proof.
  apply (proj1 layout_arithmetic_is_modular nds_layout ram_blocks kernel_accepts
           (globals0 nds_layout)
           (linput_of (rom_of scenario_header (Z.to_nat 0x3000))) 1).
  - vm_compute. discriminate.
  - vm_compute. reflexivity.
Defined.

(** * Further properties of the loader *)

(** ** The checksum and the bytes it covers *)

Lemma hi8_of_u16 c : 0 <= c < 2 ^ 16 -> hi8 c = Z.shiftr c 8.
Proof.
  intros Hc. unfold hi8. fold (lo8 (Z.shiftr c 8)).
  apply lo8_small, shiftr8_range, Hc.
Qed.

(** Two bytes in a row send a register to different registers unless they
    are the same two bytes. *)
Lemma crc16_step2_inj crc16tab c d1 d2 d1' d2' :
  tab_hi_distinct crc16tab ->
  0 <= c < 2 ^ 16 ->
  0 <= d1 < 256 -> 0 <= d2 < 256 -> 0 <= d1' < 256 -> 0 <= d2' < 256 ->
  crc16_step crc16tab (crc16_step crc16tab c d1) d2
  = crc16_step crc16tab (crc16_step crc16tab c d1') d2' ->
  d1 = d1' /\ d2 = d2'.
Proof.
  intros Htab Hc H1 H2 H1' H2' H.
  set (c1 := crc16_step crc16tab c d1) in *.
  set (c1' := crc16_step crc16tab c d1') in *.
  assert (Hc1 : 0 <= c1 < 2 ^ 16) by apply crc16_step_range.
  assert (Hc1' : 0 <= c1' < 2 ^ 16) by apply crc16_step_range.
  pose proof (index_eq crc16tab Htab _ _ _ _ Hc1 Hc1' H) as Hidx.
  apply (f_equal lo8) in H. rewrite !lo8_crc16_step in H by assumption.
  unfold tab_entry in H.
  fold (lo8 (Z.lxor c1 d2)) in H. fold (lo8 (Z.lxor c1' d2')) in H.
  rewrite Hidx in H. apply lxor_cancel_r in H.
  rewrite <- !hi8_of_u16 in H by assumption.
  unfold c1, c1' in H. rewrite !hi8_crc16_step in H by assumption.
  unfold tab_entry in H. apply Htab in H; try apply lo8_range.
  fold (lo8 (Z.lxor c d1)) in H. fold (lo8 (Z.lxor c d1')) in H.
  rewrite !lo8_lxor in H. apply lxor_cancel_l in H.
  rewrite !lo8_small in H by assumption.
  split; [exact H|]. subst d1'. subst c1'.
  rewrite !lo8_lxor in Hidx. apply lxor_cancel_l in Hidx.
  rewrite !lo8_small in Hidx by assumption. exact Hidx.
Qed.

Lemma CalcCRC16_ext crc16tab h1 h2 :
  (forall i, (i < 350)%nat -> nth i h1 Byte.x00 = nth i h2 Byte.x00) ->
  CalcCRC16 crc16tab h1 = CalcCRC16 crc16tab h2.
Proof.
  intros H. unfold CalcCRC16. rewrite !CalcCRC16_loop_map. f_equal.
  apply map_ext_in. intros i Hi. apply in_seq in Hi.
  unfold byte_at. rewrite H by lia. reflexivity.
Qed.

(** X1: [CalcCRC16] reads the first 350 bytes of the buffer and nothing
    else: two buffers with the same first 350 bytes have the same checksum,
    whatever follows (the stored checksum, the rest of the header). *)
Theorem CalcCRC16_first_350_only crc16tab h1 h2 :
  firstn 350 h1 = firstn 350 h2 ->
  CalcCRC16 crc16tab h1 = CalcCRC16 crc16tab h2.
Proof.
  intros H. apply CalcCRC16_ext. intros i Hi.
  assert (E : nth i (firstn 350 h1) Byte.x00 = nth i (firstn 350 h2) Byte.x00)
    by (rewrite H; reflexivity).
  rewrite !nth_firstn in E.
  destruct (Nat.ltb_spec i 350); [exact E|lia].
Qed.

Lemma CalcCRC16_first_350_only_witness :
  firstn 350 scenario_header = firstn 350 (sealed crc16tab_A001 scenario_header) /\
  scenario_header <> sealed crc16tab_A001 scenario_header /\
  CalcCRC16 crc16tab_A001 scenario_header
  = CalcCRC16 crc16tab_A001 (sealed crc16tab_A001 scenario_header).
Proof.
  assert (H : firstn 350 scenario_header
              = firstn 350 (sealed crc16tab_A001 scenario_header))
    by (vm_compute; reflexivity).
  split; [exact H|]. split.
  - vm_compute. discriminate.
  - apply (CalcCRC16_first_350_only crc16tab_A001 _ _ H).
Defined.

(** X2: with a table whose entries differ pairwise in their high byte, a
    change confined to two adjacent bytes (a burst of at most 16 bits, one
    changed byte included) among the first 350 changes the checksum. *)
Theorem CalcCRC16_adjacent_bytes crc16tab h h' i :
  tab_hi_distinct crc16tab ->
  (i < 350)%nat ->
  (forall j, (j < 350)%nat -> j <> i -> j <> S i ->
             nth j h Byte.x00 = nth j h' Byte.x00) ->
  nth i h Byte.x00 <> nth i h' Byte.x00 \/
  ((S i < 350)%nat /\ nth (S i) h Byte.x00 <> nth (S i) h' Byte.x00) ->
  CalcCRC16 crc16tab h <> CalcCRC16 crc16tab h'.
Proof.
  intros Htab Hi Hsame Hdiff.
  assert (Hpre : map (byte_at h) (seq 0 i) = map (byte_at h') (seq 0 i)).
  { apply map_ext_in. intros j Hj. apply in_seq in Hj.
    unfold byte_at. rewrite Hsame by lia. reflexivity. }
  assert (Hbyte : forall j, byte_at h j = byte_at h' j ->
                            nth j h Byte.x00 = nth j h' Byte.x00)
    by (intros j; apply byte.unsigned_inj).
  unfold CalcCRC16. rewrite !CalcCRC16_loop_map.
  set (c := fold_left (crc16_step crc16tab) (map (byte_at h') (seq 0 i)) 0xFFFF).
  assert (Hc : 0 <= c < 2 ^ 16) by (apply fold_crc16_step_range; lia).
  destruct (Nat.eq_dec i 349) as [Hlast|Hlast].
  - replace 350%nat with (i + 1)%nat by lia.
    rewrite seq_app, !map_app, !fold_left_app, Hpre. fold c.
    cbn [seq map fold_left]. rewrite Nat.add_0_l.
    intros H. apply crc16_step_inj_data in H;
      try assumption; try apply byte_at_range.
    apply Hbyte in H. destruct Hdiff as [Hd|[Hd _]]; [exact (Hd H)|lia].
  - replace 350%nat with (i + (2 + (348 - i)))%nat by lia.
    rewrite seq_app, !map_app, !fold_left_app, Hpre. fold c.
    rewrite (seq_app 2 (348 - i)), !map_app, !fold_left_app.
    assert (Hpost : map (byte_at h) (seq (0 + i + 2) (348 - i))
                    = map (byte_at h') (seq (0 + i + 2) (348 - i))).
    { apply map_ext_in. intros j Hj. apply in_seq in Hj.
      unfold byte_at. rewrite Hsame by lia. reflexivity. }
    rewrite Hpost. cbn [seq map fold_left]. rewrite Nat.add_0_l.
    apply fold_crc16_step_inj; try assumption; try apply crc16_step_range.
    intros H. apply crc16_step2_inj in H;
      try assumption; try apply byte_at_range.
    destruct H as [E1 E2]. apply Hbyte in E1. apply Hbyte in E2.
    destruct Hdiff as [Hd|[_ Hd]]; [exact (Hd E1)|exact (Hd E2)].
Qed.

Lemma CalcCRC16_adjacent_bytes_witness :
  CalcCRC16 crc16tab_A001 scenario_header
  <> CalcCRC16 crc16tab_A001 (flip_bit_at 100 0 (flip_bit_at 101 3 scenario_header)).
Proof.
  apply (CalcCRC16_adjacent_bytes crc16tab_A001 _ _ 100).
  - exact crc16tab_A001_hi_distinct.
  - apply Nat.ltb_lt. reflexivity.
  - intros j Hj H1 H2. unfold flip_bit_at.
    rewrite !nth_alter_nth_other by congruence. reflexivity.
  - left. vm_compute. discriminate.
Defined.

(** ** accept_file and the file's bytes *)

Lemma nds_layout_crc_field_outside : crc_field_outside nds_layout.
Proof. split; apply Nat.leb_le; reflexivity. Qed.

Lemma read_header_app lay g li :
  (sizeof_nds_hdr lay <= List.length (li_bytes li))%nat ->
  read_header lay g li
  = firstn (sizeof_nds_hdr lay) (li_bytes li) ++ skipn (sizeof_nds_hdr lay) (hdr g).
Proof.
  intros Hlen. unfold read_header, qlread, qlseek.
  cbn [fst snd li_pos li_bytes skipn].
  rewrite firstn_length_le by exact Hlen. reflexivity.
Qed.

Lemma read_header_exact lay g li :
  (sizeof_nds_hdr lay <= List.length (li_bytes li))%nat ->
  (List.length (hdr g) <= sizeof_nds_hdr lay)%nat ->
  read_header lay g li = firstn (sizeof_nds_hdr lay) (li_bytes li).
Proof.
  intros Hlen Hg. rewrite read_header_app by exact Hlen.
  rewrite skipn_all2 by exact Hg. apply app_nil_r.
Qed.

Lemma CalcCRC16_prefix crc16tab n bs tail :
  (350 <= n)%nat -> (n <= List.length bs)%nat ->
  CalcCRC16 crc16tab (firstn n bs ++ tail) = CalcCRC16 crc16tab bs.
Proof.
  intros Hn Hlen. apply CalcCRC16_ext. intros i Hi.
  rewrite app_nth1 by (rewrite firstn_length_le; lia).
  rewrite nth_firstn. destruct (Nat.ltb_spec i n); [reflexivity|lia].
Qed.

Lemma field_prefix w off n bs tail :
  (off + w <= n)%nat -> (n <= List.length bs)%nat ->
  field w off (firstn n bs ++ tail) = field w off bs.
Proof.
  intros Hoff Hn. unfold field. f_equal.
  rewrite skipn_app, firstn_app.
  rewrite length_skipn, firstn_length_le by exact Hn.
  replace (w - (n - off))%nat with 0%nat by lia.
  rewrite firstn_O, app_nil_r.
  rewrite !firstn_skipn_comm, firstn_firstn.
  replace (Nat.min (off + w) n) with (off + w)%nat by lia. reflexivity.
Qed.

(** What the probing call answers, read off the file's bytes. *)
Lemma accept_file_ret crc16tab lay g li n :
  crc_field_outside lay ->
  (sizeof_nds_hdr lay <= List.length (li_bytes li))%nat ->
  acc_ret (accept_file crc16tab lay g li n)
  = if (n =? 0) && (CalcCRC16 crc16tab (li_bytes li) =? headerCRC16 lay (li_bytes li))
    then Z.lor 1 ACCEPT_FIRST else 0.
Proof.
  intros [Hcov Hin] Hlen.
  destruct (qlread_header_full lay g li Hlen) as [Hgot _].
  pose proof (read_header_app lay g li Hlen) as Hh.
  unfold accept_file. destruct (n =? 0); cbn [negb andb]; [|reflexivity].
  cbv zeta.
  destruct (Z.ltb_spec (qlsize li) (Z.of_nat (sizeof_nds_hdr lay))) as [H|_];
    [unfold qlsize in H; lia|].
  rewrite Hgot, Z.eqb_refl. cbn [negb hdr].
  change (snd (fst (qlread (qlseek li 0) (hdr g) (sizeof_nds_hdr lay))))
    with (read_header lay g li).
  rewrite Hh. unfold headerCRC16.
  rewrite CalcCRC16_prefix, field_prefix by lia.
  destruct (CalcCRC16 crc16tab (li_bytes li) =? field 2 (off_headerCRC16 lay) (li_bytes li));
    reflexivity.
Qed.

Lemma length_poke off bs buf :
  (off + List.length bs <= List.length buf)%nat ->
  List.length (poke off bs buf) = List.length buf.
Proof.
  intros H. unfold poke.
  rewrite !length_app, length_skipn, firstn_length_le by lia. lia.
Qed.

Lemma firstn_poke n off bs buf :
  (n <= off)%nat -> (off <= List.length buf)%nat ->
  firstn n (poke off bs buf) = firstn n buf.
Proof.
  intros Hn Hoff. unfold poke.
  rewrite firstn_app, firstn_length_le by exact Hoff.
  replace (n - off)%nat with 0%nat by lia.
  rewrite firstn_O, app_nil_r, firstn_firstn.
  replace (Nat.min n off) with n by lia. reflexivity.
Qed.

Lemma field_poke w off v buf :
  (off <= List.length buf)%nat ->
  field w off (poke off (le_split w v) buf) = v mod 2 ^ (Z.of_nat w * 8).
Proof.
  intros Hoff. unfold field, poke.
  rewrite skipn_app, firstn_length_le by exact Hoff.
  rewrite Nat.sub_diag. cbn [skipn].
  rewrite skipn_all2 by (rewrite firstn_length_le; lia). cbn [app].
  rewrite firstn_app, length_le_split, Nat.sub_diag, firstn_O, app_nil_r.
  rewrite firstn_all2 by (rewrite length_le_split; lia).
  apply le_combine_split.
Qed.

Lemma length_alter_nth f buf : forall i,
  List.length (alter_nth f i buf) = List.length buf.
Proof.
  induction buf as [|b r IH]; intros i; [destruct i; reflexivity|].
  destruct i as [|i]; cbn; [reflexivity|]. rewrite IH. reflexivity.
Qed.

Lemma skipn_alter_nth f buf : forall i n,
  (i < n)%nat -> skipn n (alter_nth f i buf) = skipn n buf.
Proof.
  induction buf as [|b r IH]; intros i n Hin.
  - destruct i; reflexivity.
  - destruct n as [|n]; [lia|]. destruct i as [|i]; cbn; [reflexivity|].
    apply IH. lia.
Qed.

(** One byte changed among the first 350. *)
Lemma CalcCRC16_byte_differs crc16tab h h' i :
  tab_hi_distinct crc16tab ->
  (i < 350)%nat ->
  (forall j, (j < 350)%nat -> j <> i -> nth j h Byte.x00 = nth j h' Byte.x00) ->
  nth i h Byte.x00 <> nth i h' Byte.x00 ->
  CalcCRC16 crc16tab h <> CalcCRC16 crc16tab h'.
Proof.
  intros Htab Hi Hsame Hdiff.
  unfold CalcCRC16. rewrite !CalcCRC16_loop_map.
  replace 350%nat with (i + S (349 - i))%nat by lia.
  rewrite seq_app, !map_app, !fold_left_app. cbn [seq map fold_left].
  rewrite Nat.add_0_l.
  assert (Hpre : map (byte_at h) (seq 0 i) = map (byte_at h') (seq 0 i)).
  { apply map_ext_in. intros j Hj. apply in_seq in Hj.
    unfold byte_at. rewrite Hsame by lia. reflexivity. }
  assert (Hpost : map (byte_at h) (seq (S i) (349 - i))
                  = map (byte_at h') (seq (S i) (349 - i))).
  { apply map_ext_in. intros j Hj. apply in_seq in Hj.
    unfold byte_at. rewrite Hsame by lia. reflexivity. }
  rewrite Hpre, Hpost.
  set (c := fold_left (crc16_step crc16tab) (map (byte_at h') (seq 0 i)) 0xFFFF).
  assert (Hc : 0 <= c < 2 ^ 16) by (apply fold_crc16_step_range; lia).
  apply fold_crc16_step_inj; try assumption; try apply crc16_step_range.
  intros H. apply crc16_step_inj_data in H;
    try assumption; try apply byte_at_range.
  apply byte.unsigned_inj in H. exact (Hdiff H).
Qed.

Lemma flip_bit_neq k b : 0 <= k < 8 -> flip_bit k b <> b.
Proof.
  intros Hk H. apply (flip_bit_changes k b Hk). rewrite H. reflexivity.
Qed.

(** X3: [accept_file] has two outcomes.  Either it returns 0, fills no
    format name and calls nothing; or it returns [1 | ACCEPT_FIRST] = 0x8001,
    on the first invocation, for a file at least as long as the header, with
    the format name set to Nintendo DS ROM, the processor type set to ARM
    and the file position just after the header.  It never writes [inf] and
    never changes the file's bytes. *)
Theorem accept_file_outcomes crc16tab lay g li n :
  let r := accept_file crc16tab lay g li n in
  inf (acc_globals r) = inf g /\
  li_bytes (acc_li r) = li_bytes li /\
  ((acc_ret r = 0 /\ acc_fileformatname r = None /\ acc_calls r = []) \/
   (acc_ret r = 0x8001 /\ n = 0 /\
    (sizeof_nds_hdr lay <= List.length (li_bytes li))%nat /\
    acc_fileformatname r = Some "Nintendo DS ROM"%string /\
    acc_calls r = [set_processor_type "ARM"] /\
    li_pos (acc_li r) = sizeof_nds_hdr lay)).
Proof.
  assert (Hrej : forall g0 li0,
            li_bytes li0 = li_bytes li -> inf g0 = inf g ->
            let r := mk_accept 0 g0 li0 None [] in
            inf (acc_globals r) = inf g /\
            li_bytes (acc_li r) = li_bytes li /\
            ((acc_ret r = 0 /\ acc_fileformatname r = None /\ acc_calls r = []) \/
             (acc_ret r = 0x8001 /\ n = 0 /\
              (sizeof_nds_hdr lay <= List.length (li_bytes li))%nat /\
              acc_fileformatname r = Some "Nintendo DS ROM"%string /\
              acc_calls r = [set_processor_type "ARM"] /\
              li_pos (acc_li r) = sizeof_nds_hdr lay)))
    by (intros g0 li0 Hb Hi; cbn; repeat split; try assumption; left; repeat split).
  cbv zeta in *. unfold accept_file.
  destruct (Z.eqb_spec n 0) as [->|Hn]; cbn [negb]; [|apply Hrej; reflexivity].
  cbv zeta.
  destruct (Z.ltb_spec (qlsize li) (Z.of_nat (sizeof_nds_hdr lay))) as [Hs|Hs];
    [apply Hrej; reflexivity|].
  assert (Hlen : (sizeof_nds_hdr lay <= List.length (li_bytes li))%nat)
    by (unfold qlsize in Hs; lia).
  destruct (negb (fst (fst (qlread _ _ _)) =? _)); [apply Hrej; reflexivity|].
  destruct (negb (CalcCRC16 _ _ =? _)); [apply Hrej; reflexivity|].
  split; [reflexivity|]. split; [reflexivity|]. right.
  repeat split; try assumption.
  cbn. rewrite firstn_length_le by exact Hlen. reflexivity.
Qed.

(** X4: with the buffer [hdr] no longer than the struct, what [accept_file]
    returns, the format name and the kernel calls depend on the file's bytes
    and on [n] only: not on what [hdr] or [inf] held before, nor on the
    position the file was left at. *)
Theorem accept_file_stateless crc16tab lay g g' li li' n :
  li_bytes li = li_bytes li' ->
  (List.length (hdr g) <= sizeof_nds_hdr lay)%nat ->
  (List.length (hdr g') <= sizeof_nds_hdr lay)%nat ->
  acc_ret (accept_file crc16tab lay g li n)
  = acc_ret (accept_file crc16tab lay g' li' n) /\
  acc_fileformatname (accept_file crc16tab lay g li n)
  = acc_fileformatname (accept_file crc16tab lay g' li' n) /\
  acc_calls (accept_file crc16tab lay g li n)
  = acc_calls (accept_file crc16tab lay g' li' n).
Proof.
  intros Hb Hg Hg'. unfold accept_file.
  destruct (n =? 0); cbn [negb]; [|auto]. cbv zeta.
  unfold qlsize. rewrite <- Hb.
  destruct (Z.ltb_spec (Z.of_nat (List.length (li_bytes li)))
                       (Z.of_nat (sizeof_nds_hdr lay))) as [Hs|Hs]; [auto|].
  assert (Hlen : (sizeof_nds_hdr lay <= List.length (li_bytes li))%nat) by lia.
  assert (Hlen' : (sizeof_nds_hdr lay <= List.length (li_bytes li'))%nat)
    by (rewrite <- Hb; exact Hlen).
  destruct (qlread_header_full lay g li Hlen) as [Hgot _].
  destruct (qlread_header_full lay g' li' Hlen') as [Hgot' _].
  rewrite Hgot, Hgot', Z.eqb_refl. cbn [negb hdr].
  change (snd (fst (qlread (qlseek li 0) (hdr g) (sizeof_nds_hdr lay))))
    with (read_header lay g li).
  change (snd (fst (qlread (qlseek li' 0) (hdr g') (sizeof_nds_hdr lay))))
    with (read_header lay g' li').
  rewrite !read_header_exact by assumption. rewrite <- Hb.
  destruct (negb (CalcCRC16 _ _ =? _)); auto.
Qed.

Lemma accept_file_stateless_witness :
  acc_ret (accept_file crc16tab_A001 nds_layout (globals0 nds_layout) sealed_rom 0)
  = acc_ret (accept_file crc16tab_A001 nds_layout stale_globals
                         (qlseek sealed_rom 7) 0).
Proof.
  apply (accept_file_stateless crc16tab_A001 nds_layout (globals0 nds_layout)
           stale_globals sealed_rom (qlseek sealed_rom 7) 0).
  - reflexivity.
  - apply Nat.leb_le. vm_compute. reflexivity.
  - apply Nat.leb_le. vm_compute. reflexivity.
Defined.

(** X5: round trip of the checksum: when the field [headerCRC16] lies after
    the 350 bytes covered and inside the struct, storing [CalcCRC16] of a
    file's header in that field gives a file that [accept_file] recognises,
    whatever the other bytes are. *)
Theorem accept_file_seal crc16tab lay g bs pos :
  crc_field_outside lay ->
  (sizeof_nds_hdr lay <= List.length bs)%nat ->
  acc_ret (accept_file crc16tab lay g (mk_linput (seal lay crc16tab bs) pos) 0)
  = Z.lor 1 ACCEPT_FIRST.
Proof.
  intros Hlay Hlen. pose proof Hlay as [Hcov Hin].
  assert (Hl : List.length (seal lay crc16tab bs) = List.length bs).
  { unfold seal, poke16. apply length_poke. rewrite length_le_split. lia. }
  rewrite accept_file_ret by (cbn [li_bytes]; first [exact Hlay|lia]).
  cbn [li_bytes Z.eqb andb].
  assert (Hcrc : CalcCRC16 crc16tab (seal lay crc16tab bs) = CalcCRC16 crc16tab bs).
  { apply CalcCRC16_ext. intros i Hi.
    assert (E : firstn 350 (seal lay crc16tab bs) = firstn 350 bs)
      by (apply firstn_poke; lia).
    apply (f_equal (fun l => nth i l Byte.x00)) in E.
    rewrite !nth_firstn in E.
    destruct (Nat.ltb_spec i 350); [exact E|lia]. }
  assert (Hfld : headerCRC16 lay (seal lay crc16tab bs) = CalcCRC16 crc16tab bs).
  { unfold headerCRC16, seal, poke16. rewrite field_poke by lia.
    change (Z.of_nat 2 * 8) with 16. apply Z.mod_small.
    unfold CalcCRC16. apply CalcCRC16_loop_range. lia. }
  rewrite Hcrc, Hfld, Z.eqb_refl. reflexivity.
Qed.

Lemma accept_file_seal_witness :
  acc_ret (accept_file crc16tab_8408 nds_layout (globals0 nds_layout)
             (mk_linput (seal nds_layout crc16tab_8408 (li_bytes wrapped_rom)) 0) 0)
  = Z.lor 1 ACCEPT_FIRST.
Proof.
  apply (accept_file_seal crc16tab_8408 nds_layout (globals0 nds_layout)
           (li_bytes wrapped_rom) 0).
  - exact nds_layout_crc_field_outside.
  - apply Nat.leb_le. vm_compute. reflexivity.
Defined.

(** X6: with such a layout and a table whose entries differ pairwise in
    their high byte, changing any one of the first 350 bytes of a file that
    [accept_file] recognises gives a file that it rejects. *)
Theorem accept_file_rejects_changed_byte crc16tab lay g g' li pos i f :
  tab_hi_distinct crc16tab ->
  crc_field_outside lay ->
  (sizeof_nds_hdr lay <= List.length (li_bytes li))%nat ->
  acc_ret (accept_file crc16tab lay g li 0) <> 0 ->
  (i < 350)%nat ->
  f (nth i (li_bytes li) Byte.x00) <> nth i (li_bytes li) Byte.x00 ->
  acc_ret (accept_file crc16tab lay g'
             (mk_linput (alter_nth f i (li_bytes li)) pos) 0) = 0.
Proof.
  intros Htab Hlay Hlen Hacc Hi Hf. pose proof Hlay as [Hcov Hin].
  assert (Hfld : headerCRC16 lay (alter_nth f i (li_bytes li))
                 = headerCRC16 lay (li_bytes li)).
  { unfold headerCRC16, field. rewrite skipn_alter_nth by lia. reflexivity. }
  assert (Hcrc : CalcCRC16 crc16tab (alter_nth f i (li_bytes li))
                 <> CalcCRC16 crc16tab (li_bytes li)).
  { apply (CalcCRC16_byte_differs crc16tab _ _ i Htab Hi).
    - intros j Hj Hne. apply nth_alter_nth_other. congruence.
    - rewrite nth_alter_nth_same by lia. exact Hf. }
  rewrite accept_file_ret in Hacc by assumption.
  rewrite accept_file_ret
    by (cbn [li_bytes]; first [exact Hlay|rewrite length_alter_nth; exact Hlen]).
  cbn [li_bytes]. rewrite Hfld. clear Hfld.
  revert Hacc Hcrc.
  generalize (CalcCRC16 crc16tab (alter_nth f i (li_bytes li))).
  generalize (CalcCRC16 crc16tab (li_bytes li)).
  generalize (headerCRC16 lay (li_bytes li)).
  intros s c c' Hacc Hcrc.
  change (0 =? 0) with true in *. cbn [andb] in *.
  destruct (Z.eqb_spec c s) as [Heq|]; [|congruence].
  rewrite <- Heq.
  destruct (Z.eqb_spec c' c); [contradiction|reflexivity].
Qed.

Lemma accept_file_rejects_changed_byte_witness :
  acc_ret (accept_file crc16tab_A001 nds_layout (globals0 nds_layout) sealed_rom 0)
  <> 0 /\
  acc_ret (accept_file crc16tab_A001 nds_layout (globals0 nds_layout)
             (mk_linput (flip_bit_at 12 5 (li_bytes sealed_rom)) 0) 0) = 0.
Proof.
  assert (H : acc_ret (accept_file crc16tab_A001 nds_layout (globals0 nds_layout)
                                   sealed_rom 0) <> 0)
    by (vm_compute; discriminate).
  split; [exact H|].
  apply (accept_file_rejects_changed_byte crc16tab_A001 nds_layout
           (globals0 nds_layout) (globals0 nds_layout) sealed_rom 0 12 (flip_bit 5)).
  - exact crc16tab_A001_hi_distinct.
  - exact nds_layout_crc_field_outside.
  - apply Nat.leb_le. vm_compute. reflexivity.
  - exact H.
  - apply Nat.ltb_lt. reflexivity.
  - vm_compute. discriminate.
Defined.

(** ** Runs of load_file *)

Lemma read_header_again lay g li pos inf' :
  read_header lay (mk_globals (read_header lay g li) inf') (mk_linput (li_bytes li) pos)
  = read_header lay g li.
Proof.
  unfold read_header, qlread, qlseek. cbn [fst snd li_pos li_bytes skipn hdr].
  rewrite skipn_app, skipn_all, Nat.sub_diag. reflexivity.
Qed.

(** What accept_file leaves behind, as load_file sees it. *)
Lemma accept_file_leaves crc16tab lay g li n :
  let r := accept_file crc16tab lay g li n in
  read_header lay (acc_globals r) (acc_li r) = read_header lay g li /\
  inf (acc_globals r) = inf g /\
  qlsize (acc_li r) = qlsize li.
Proof.
  cbv zeta. unfold accept_file.
  destruct (n =? 0); cbn [negb]; [|repeat split].
  cbv zeta.
  destruct (qlsize li <? Z.of_nat (sizeof_nds_hdr lay)); [repeat split|].
  assert (H : read_header lay
                (mk_globals (snd (fst (qlread (qlseek li 0) (hdr g) (sizeof_nds_hdr lay))))
                            (inf g))
                (snd (qlread (qlseek li 0) (hdr g) (sizeof_nds_hdr lay)))
              = read_header lay g li)
    by (apply (read_header_again lay g li)).
  destruct (negb (fst (fst (qlread _ _ _)) =? _)); [repeat split; exact H|].
  destruct (negb (CalcCRC16 _ _ =? _)); repeat split; exact H.
Qed.

Lemma load_file_depends lay memory add_segm_ok g g' li li' answer :
  read_header lay g li = read_header lay g' li' ->
  inf g = inf g' -> qlsize li = qlsize li' ->
  load_file lay memory add_segm_ok g li answer
  = load_file lay memory add_segm_ok g' li' answer.
Proof.
  intros Hh Hi Hq. rewrite !load_file_eq. cbv zeta. rewrite Hh, Hi, Hq. reflexivity.
Qed.

(** X7: [load_file] seeks to the start of the file and reads the header
    again, so that probing the file with [accept_file] first (any
    invocation index, recognised or not) changes nothing in what [load_file]
    then does. *)
Theorem load_file_after_accept_file crc16tab lay memory add_segm_ok g li n answer :
  let r := accept_file crc16tab lay g li n in
  load_file lay memory add_segm_ok (acc_globals r) (acc_li r) answer
  = load_file lay memory add_segm_ok g li answer.
Proof.
  cbv zeta.
  destruct (accept_file_leaves crc16tab lay g li n) as (Hh & Hi & Hq).
  apply load_file_depends; assumption.
Qed.

(** X8: for a file at least as long as the header, with [hdr] no longer
    than the struct, [load_file] does not depend on what [hdr] held before
    nor on the file position: started with the same [inf] two runs are
    equal, and whatever [inf] held the exit taken is the same, and a run
    that returns, returns the same locals, globals and kernel calls. *)
Theorem load_file_stateless lay memory add_segm_ok g g' li li' answer :
  li_bytes li = li_bytes li' ->
  (sizeof_nds_hdr lay <= List.length (li_bytes li))%nat ->
  (List.length (hdr g) <= sizeof_nds_hdr lay)%nat ->
  (List.length (hdr g') <= sizeof_nds_hdr lay)%nat ->
  (inf g = inf g' ->
   load_file lay memory add_segm_ok g li answer
   = load_file lay memory add_segm_ok g' li' answer) /\
  exit_site_of (load_file lay memory add_segm_ok g li answer)
  = exit_site_of (load_file lay memory add_segm_ok g' li' answer) /\
  (forall l gg calls,
     load_file lay memory add_segm_ok g li answer = returned l gg calls ->
     load_file lay memory add_segm_ok g' li' answer = returned l gg calls).
Proof.
  intros Hb Hlen Hg Hg'.
  assert (Hlen' : (sizeof_nds_hdr lay <= List.length (li_bytes li'))%nat)
    by (rewrite <- Hb; exact Hlen).
  assert (Hh : read_header lay g li = read_header lay g' li')
    by (rewrite !read_header_exact, Hb by assumption; reflexivity).
  assert (Hq : qlsize li = qlsize li') by (unfold qlsize; rewrite Hb; reflexivity).
  split; [intros Hi; apply load_file_depends; assumption|].
  (* the start_cs of the old inf shows on exits only *)
  set (g0 := mk_globals (hdr g') (inf g)).
  assert (E : load_file lay memory add_segm_ok g li answer
              = load_file lay memory add_segm_ok g0 li' answer)
    by (apply load_file_depends; [exact Hh|reflexivity|exact Hq]).
  rewrite E. clear E. rewrite !load_file_eq. cbv zeta.
  change (read_header lay g0 li') with (read_header lay g' li').
  change (inf g0) with (inf g).
  destruct (u32 answer =? BADADDR); [split; [reflexivity|discriminate]|].
  destruct (qlsize li' <? _); [split; [reflexivity|discriminate]|].
  unfold map_image. cbn [hdr inf startIP beginEA start_cs]. cbv zeta.
  destruct (found_mem_block _ _ _); cbn [negb];
    [|split; [reflexivity|discriminate]].
  destruct (fst (create_segments _ _ _)); cbn [negb];
    [|split; [reflexivity|discriminate]].
  split; [reflexivity|]. intros l gg calls H. exact H.
Qed.

Lemma load_file_stateless_witness :
  exit_site_of (load_file nds_layout ram_blocks kernel_accepts
                          (globals0 nds_layout) scenario_rom 1)
  = exit_site_of (load_file nds_layout ram_blocks kernel_accepts
                            stale_globals (qlseek scenario_rom 7) 1).
Proof.
  apply (load_file_stateless nds_layout ram_blocks kernel_accepts
           (globals0 nds_layout) stale_globals scenario_rom (qlseek scenario_rom 7) 1).
  - reflexivity.
  - apply Nat.leb_le. vm_compute. reflexivity.
  - apply Nat.leb_le. vm_compute. reflexivity.
  - apply Nat.leb_le. vm_compute. reflexivity.
Defined.

Lemma u32_is_BADADDR answer :
  - 2 ^ 31 <= answer < 2 ^ 31 -> (u32 answer = BADADDR <-> answer = -1).
Proof.
  intros H. unfold u32, BADADDR.
  change (2 ^ 32) with 4294967296. change (2 ^ 31) with 2147483648 in H.
  split; [|intros ->; reflexivity].
  intros E. Z.div_mod_to_equations. lia.
Qed.

Lemma map_image_not_cancel lay memory add_segm_ok g calls s e off a :
  exit_site_of (map_image lay memory add_segm_ok g calls s e off a) <> Some at_cancel.
Proof.
  unfold map_image. cbv zeta.
  destruct (found_mem_block _ _ _); cbn [negb]; [|discriminate].
  destruct (fst (create_segments _ _ _)); cbn; discriminate.
Qed.

(** X9: for an answer in the range of [int], [load_file] leaves at the
    cancel exit exactly when the answer is -1; it has then read the header
    into [hdr] and has neither called the kernel nor written [inf]. *)
Theorem load_file_cancel lay memory add_segm_ok g li answer :
  - 2 ^ 31 <= answer < 2 ^ 31 ->
  (exit_site_of (load_file lay memory add_segm_ok g li answer) = Some at_cancel
   <-> answer = -1) /\
  (answer = -1 ->
   load_file lay memory add_segm_ok g li answer
   = qexit at_cancel 1 (mk_globals (read_header lay g li) (inf g)) []).
Proof.
  intros Hint. pose proof (u32_is_BADADDR answer Hint) as Hbad.
  rewrite load_file_eq. cbv zeta.
  destruct (Z.eqb_spec (u32 answer) BADADDR) as [Hc|Hc].
  - split; [split; [intros _; apply Hbad, Hc|reflexivity]|reflexivity].
  - assert (Hne : answer <> -1) by (intros E; apply Hc, Hbad, E).
    split; [|intros E; contradiction].
    split; [|intros E; contradiction].
    destruct (qlsize li <? _); [discriminate|].
    intros H. exfalso. exact (map_image_not_cancel _ _ _ _ _ _ _ _ _ H).
Qed.

Lemma load_file_cancel_witness :
  exit_site_of (load_file nds_layout ram_blocks kernel_accepts
                          (globals0 nds_layout) scenario_rom (-1))
  = Some at_cancel.
Proof.
  apply (load_file_cancel nds_layout ram_blocks kernel_accepts
           (globals0 nds_layout) scenario_rom (-1)).
  - lia.
  - reflexivity.
Defined.

(** X10: when [load_file] returns, [inf.startIP] and [inf.beginEA] are the
    entry address of the chosen image, [hdr] holds the header read, and
    [inf.start_cs] is 0, unless the entry address is [BADADDR], in which
    case it stays 1. *)
Theorem load_file_entry_point lay memory add_segm_ok g li answer l g' calls :
  load_file lay memory add_segm_ok g li answer = returned l g' calls ->
  let e := image_entry_address lay (chose_ARM9 answer) (read_header lay g li) in
  hdr g' = read_header lay g li /\
  startIP (inf g') = e /\
  beginEA (inf g') = e /\
  start_cs (inf g') = (if e =? BADADDR then 1 else 0).
Proof.
  rewrite load_file_eq. cbv zeta.
  destruct (u32 answer =? BADADDR); [discriminate|].
  destruct (qlsize li <? _); [discriminate|].
  unfold map_image. cbn [hdr inf startIP beginEA start_cs]. cbv zeta.
  destruct (found_mem_block _ _ _); cbn [negb]; [|discriminate].
  destruct (fst (create_segments _ _ _)); cbn [negb]; [|discriminate].
  fold (image_entry_address lay (chose_ARM9 answer) (read_header lay g li)).
  intros H. injection H as _ <- _.
  destruct (image_entry_address lay (chose_ARM9 answer) (read_header lay g li)
            =? BADADDR); cbn; repeat split.
Qed.

Lemma load_file_entry_point_witness :
  exists l g' calls,
    load_file nds_layout ram_blocks kernel_accepts
              (globals0 nds_layout) scenario_rom 1 = returned l g' calls /\
    startIP (inf g') = 0x02004000 /\ start_cs (inf g') = 0.
Proof.
  destruct (load_file nds_layout ram_blocks kernel_accepts
                      (globals0 nds_layout) scenario_rom 1)
    as [site code g' calls|l g' calls] eqn:Hrun.
  - vm_compute in Hrun. discriminate.
  - exists l, g', calls. split; [reflexivity|].
    destruct (load_file_entry_point nds_layout ram_blocks kernel_accepts
                (globals0 nds_layout) scenario_rom 1 l g' calls Hrun)
      as (_ & Hip & _ & Hcs).
    rewrite Hip, Hcs, scenario_header_read. vm_compute. split; reflexivity.
Defined.

(** The segment loop when the kernel refuses a block: the blocks before it
    were granted. *)
Lemma create_segments_refused add_segm_ok ms : forall calls,
  fst (create_segments add_segm_ok ms calls) = false ->
  exists granted refused rest,
    ms = granted ++ refused :: rest /\
    (forall before m after,
       granted = before ++ m :: after ->
       add_segm_ok (calls ++ map seg_call before) m = true) /\
    add_segm_ok (calls ++ map seg_call granted) refused = false /\
    snd (create_segments add_segm_ok ms calls)
    = calls ++ map seg_call granted ++ [seg_call refused].
Proof.
  induction ms as [|m ms IH]; intros calls H; cbn [create_segments] in *.
  - discriminate.
  - cbv zeta in *. fold (seg_call m) in *.
    destruct (add_segm_ok calls m) eqn:Hm.
    + destruct (IH _ H) as (gr & rf & rest & -> & Hgr & Hrf & Hcalls).
      exists (m :: gr), rf, rest. cbn [map app].
      rewrite <- app_assoc in Hrf, Hcalls. cbn [app] in Hrf, Hcalls.
      split; [reflexivity|]. split; [|split; assumption].
      intros before m' after E. destruct before as [|b0 before]; cbn [app map] in *.
      * injection E as <- _. rewrite app_nil_r. exact Hm.
      * injection E as <- E. specialize (Hgr before m' after E).
        rewrite <- app_assoc in Hgr. exact Hgr.
    + exists [], m, ms. cbn [map app]. rewrite app_nil_r.
      split; [reflexivity|]. split; [|split; [exact Hm|reflexivity]].
      intros before m' after E. destruct before; discriminate.
Qed.

(** X11: a run of [load_file] that exits does so with code 1 and without
    having copied anything ([file2base] is not called).  At the cancel exit
    nothing was called; at the sanity and RAM-block exits only the processor
    type was set, and [inf.startIP] and [inf.beginEA] already hold the entry
    address; at the segment exit the kernel was asked for the blocks of the
    table, in order, up to the first one it refused: it granted every block
    before that one. *)
Theorem load_file_exits lay memory add_segm_ok g li answer site code g' calls :
  load_file lay memory add_segm_ok g li answer = qexit site code g' calls ->
  let h := read_header lay g li in
  let a := chose_ARM9 answer in
  let e := image_entry_address lay a h in
  code = 1 /\
  hdr g' = h /\
  filter is_file2base calls = [] /\
  match site with
  | at_cancel => calls = [] /\ inf g' = inf g
  | at_sanitycheck | at_mem_block =>
      calls = [set_processor_type (processor_of a)] /\
      inf g' = mk_inf e e (start_cs (inf g))
  | at_add_segm =>
      inf g' = mk_inf e e 1 /\
      exists granted refused rest,
        memory = granted ++ refused :: rest /\
        (forall before m after,
           granted = before ++ m :: after ->
           add_segm_ok ([set_processor_type (processor_of a); set_selector 1 0]
                        ++ map seg_call before) m = true) /\
        add_segm_ok ([set_processor_type (processor_of a); set_selector 1 0]
                     ++ map seg_call granted) refused = false /\
        calls = [set_processor_type (processor_of a); set_selector 1 0]
                ++ map seg_call granted ++ [seg_call refused]
  end.
Proof.
  rewrite load_file_eq. cbv zeta.
  destruct (u32 answer =? BADADDR).
  { intros H. injection H as <- <- <- <-. repeat split. }
  destruct (qlsize li <? _).
  { intros H. injection H as <- <- <- <-. repeat split. }
  unfold map_image. cbn [hdr inf startIP beginEA start_cs]. cbv zeta.
  destruct (found_mem_block _ _ _); cbn [negb].
  2:{ intros H. injection H as <- <- <- <-. repeat split. }
  destruct (fst (create_segments _ _ _)) eqn:Hseg; cbn [negb]; [discriminate|].
  intros H. injection H as <- <- <- <-.
  destruct (create_segments_refused _ _ _ Hseg)
    as (gr & rf & rest & Hm & Hgr & Hrf & Hc).
  cbn [app] in Hc, Hrf, Hgr. rewrite Hc.
  split; [reflexivity|]. split; [reflexivity|]. split.
  - cbn [filter is_file2base]. rewrite filter_app.
    rewrite (proj2 (filter_seg_calls gr)). reflexivity.
  - split; [reflexivity|]. exists gr, rf, rest. repeat split; assumption.
Qed.

Lemma load_file_exits_witness :
  exists site code g' calls,
    load_file nds_layout ram_blocks kernel_accepts (globals0 nds_layout)
              (linput_of (rom_of scenario_header (Z.to_nat 0x3000))) 1
    = qexit site code g' calls /\
    code = 1 /\ filter is_file2base calls = [].
Proof.
  destruct (load_file nds_layout ram_blocks kernel_accepts (globals0 nds_layout)
              (linput_of (rom_of scenario_header (Z.to_nat 0x3000))) 1)
    as [site code g' calls|l g' calls] eqn:Hrun.
  - exists site, code, g', calls. split; [reflexivity|].
    destruct (load_file_exits nds_layout ram_blocks kernel_accepts
                (globals0 nds_layout) _ 1 site code g' calls Hrun)
      as (Hcode & _ & Hcopy & _).
    split; assumption.
  - vm_compute in Hrun. discriminate.
Defined.

(** X12: the RAM-block test lets through every window that is not longer
    than some block of the table, wherever it lies, inside the blocks or
    not (a window whose end address wrapped below its start included). *)
Theorem short_window_accepted lay memory add_segm_ok g li answer r :
  let h := read_header lay g li in
  let a := chose_ARM9 answer in
  let startAddress := image_ram_address lay a h in
  let endAddress := u32 (image_ram_address lay a h + image_size lay a h) in
  u32 answer <> BADADDR ->
  qlsize li >= u32 (image_rom_offset lay a h + image_size lay a h) ->
  In r memory ->
  endAddress - startAddress <= mem_end r - mem_start r ->
  found_mem_block memory startAddress endAddress = true /\
  exit_site_of (load_file lay memory add_segm_ok g li answer) <> Some at_mem_block.
Proof.
  intros h a s e Hans Hsize Hin Hshort.
  assert (Hfound : found_mem_block memory s e = true).
  { apply found_mem_block_iff. exists r. split; [exact Hin|].
    unfold block_test. destruct (Z_lt_le_dec s (mem_start r)); [right|left]; lia. }
  split; [exact Hfound|].
  rewrite load_file_eq. cbv zeta. fold h a.
  apply Z.eqb_neq in Hans. rewrite Hans.
  destruct (Z.ltb_spec (qlsize li)
              (u32 (image_rom_offset lay a h + image_size lay a h))) as [H|_];
    [lia|].
  apply map_image_found. exact Hfound.
Qed.

Lemma short_window_accepted_witness :
  image_ram_address nds_layout true
    (read_header nds_layout (globals0 nds_layout) outside_rom) = 0x08000000 /\
  exit_site_of (load_file nds_layout ram_blocks kernel_accepts
                          (globals0 nds_layout) outside_rom 1)
  <> Some at_mem_block.
Proof.
  split; [vm_compute; reflexivity|].
  apply (short_window_accepted nds_layout ram_blocks kernel_accepts
           (globals0 nds_layout) outside_rom 1 (mk_mem 0x02000000 0x023FFFFF)).
  - vm_compute. discriminate.
  - vm_compute. discriminate.
  - left. reflexivity.
  - vm_compute. discriminate.
Defined.

Lemma create_segments_snd add_segm_ok ms : forall calls,
  exists asked,
    snd (create_segments add_segm_ok ms calls) = calls ++ map seg_call asked.
Proof.
  induction ms as [|m ms IH]; intros calls; cbn [create_segments].
  - exists []. cbn. rewrite app_nil_r. reflexivity.
  - cbv zeta. fold (seg_call m). destruct (add_segm_ok calls m).
    + destruct (IH (calls ++ [seg_call m])) as [asked H].
      exists (m :: asked). rewrite H, <- app_assoc. reflexivity.
    + exists [m]. reflexivity.
Qed.

Lemma filter_set_processor_seg_calls ms :
  filter is_set_processor_type (map seg_call ms) = [].
Proof. induction ms as [|m ms IH]; [reflexivity|exact IH]. Qed.

Lemma filter_set_processor_describe_rom lay h s e a entry :
  filter is_set_processor_type (describe_rom lay h s e a entry) = [].
Proof. unfold describe_rom. destruct (negb (entry =? s)); reflexivity. Qed.

(** X13: a run of [load_file] that is not cancelled sets the processor type
    first and once: ARM710A when the answer is 0 (ARM7), ARM for every other
    answer (ARM9); a run that returns has the flag [ARM9] set accordingly. *)
Theorem load_file_processor lay memory add_segm_ok g li answer :
  u32 answer <> BADADDR ->
  let run := load_file lay memory add_segm_ok g li answer in
  (exists rest,
     calls_of run
     = set_processor_type (if answer =? 0 then "ARM710A" else "ARM") :: rest /\
     filter is_set_processor_type rest = []) /\
  (forall l g' calls, run = returned l g' calls -> ARM9 l = negb (answer =? 0)).
Proof.
  intros Hans. cbv zeta. rewrite load_file_eq. cbv zeta.
  apply Z.eqb_neq in Hans. rewrite Hans.
  unfold chose_ARM9, processor_of.
  set (p := if negb (answer =? 0) then "ARM"%string else "ARM710A"%string).
  assert (Hp : (if answer =? 0 then "ARM710A"%string else "ARM"%string) = p)
    by (unfold p; destruct (answer =? 0); reflexivity).
  rewrite Hp.
  destruct (qlsize li <? _).
  { split; [exists []; split; reflexivity|discriminate]. }
  unfold map_image. cbv zeta.
  destruct (found_mem_block _ _ _); cbn [negb].
  2:{ split; [exists []; split; reflexivity|discriminate]. }
  destruct (create_segments_snd add_segm_ok memory
              ([set_processor_type p] ++ [set_selector 1 0])) as [asked Hsnd].
  destruct (fst (create_segments _ _ _)); cbn [negb calls_of].
  - split.
    + rewrite Hsnd. cbn [app]. eexists. split; [reflexivity|].
      cbn [filter is_set_processor_type].
      rewrite !filter_app, filter_set_processor_seg_calls,
        filter_set_processor_describe_rom.
      reflexivity.
    + intros l g' calls H. injection H as <- _ _. reflexivity.
  - split; [|discriminate].
    rewrite Hsnd. cbn [app]. eexists. split; [reflexivity|].
    cbn [filter is_set_processor_type].
    apply filter_set_processor_seg_calls.
Qed.

Lemma load_file_processor_witness :
  exists rest,
    calls_of (load_file nds_layout ram_blocks kernel_accepts
                        (globals0 nds_layout) scenario_rom 0)
    = set_processor_type "ARM710A" :: rest.
Proof.
  destruct (proj1 (load_file_processor nds_layout ram_blocks kernel_accepts
                     (globals0 nds_layout) scenario_rom 0
                     ltac:(vm_compute; discriminate)))
    as (rest & Hcalls & _).
  exists rest. exact Hcalls.
Defined.
